(** * Adhunik Kitaab: the recommendation engine

    A shallow embedding of [app/recommender.py] and [app/google_books.py]
    and the properties of profile extraction, candidate retrieval, scoring,
    de-duplication and ranking.

    Conventions of the model.
    - Python [str] is [string]; [str.lower] lower-cases the ASCII letters
      and leaves every other byte alone.
    - Scores are the floats 1.0, 2.0, 2.5 and 0.5 and their sums.  All of
      them are multiples of 0.5, so a score is represented exactly by the
      integer number of half points: 1.0 is [2], 2.0 is [4], 2.5 is [5] and
      0.5 is [1].
    - A rating is an integer number of half stars (the range 0.5 .. 5.0 of
      [RatingIn] is 1 .. 10), so that accumulated weights are exact.
      Module [Weighted] has profile extraction once more over the numbers
      as Python has them: their own [+] and [<] (floats), any [str.lower],
      a rating that may be absent or [None], a store that may fail.
    - [dict] and [Counter] keep insertion order: they are association lists
      whose keys are distinct, a new key is appended at the end and an
      assignment to an existing key keeps its position.
    - Awaited I/O is a small monad that logs every store read and HTTP
      request and either returns or raises. *)

From Stdlib Require Import List ZArith String Ascii Bool Lia.
From Stdlib Require Import Permutation Sorting.Sorted PrimFloat.
Import ListNotations.
Local Open Scope Z_scope.
Local Open Scope list_scope.

Set Implicit Arguments.

(** ** Strings *)

Module Str.

Definition lower_ascii (c : ascii) : ascii :=
  let n := nat_of_ascii c in
  if ((65 <=? n) && (n <=? 90))%nat then ascii_of_nat (n + 32) else c.

(** [s.lower()] *)
Fixpoint lower (s : string) : string :=
  match s with
  | EmptyString => EmptyString
  | String c s' => String (lower_ascii c) (lower s')
  end.

(** [s in t] on strings *)
Fixpoint is_substring (s t : string) : bool :=
  String.prefix s t ||
  match t with
  | EmptyString => false
  | String _ t' => is_substring s t'
  end.

(** [x or <empty string>] for a value that is a string or [None] *)
Definition or_empty (x : option string) : string :=
  match x with
  | Some s => s
  | None => EmptyString
  end.

(** [x in xs] for a list or set of strings *)
Definition mem (x : string) (xs : list string) : bool :=
  existsb (String.eqb x) xs.

End Str.

(** ** Insertion-ordered dictionaries, [Counter], [sorted] and slices *)

Module Dict.

Section WithValue.
Variable V : Type.

Definition t := list (string * V).

(** [d.get(k)] *)
Fixpoint get (k : string) (d : t) : option V :=
  match d with
  | [] => None
  | (k', v) :: d' => if String.eqb k' k then Some v else get k d'
  end.

(** [d[k] = v]: an existing key keeps its place, a new one goes last *)
Fixpoint set (k : string) (v : V) (d : t) : t :=
  match d with
  | [] => [(k, v)]
  | (k', v') :: d' =>
      if String.eqb k' k then (k', v) :: d' else (k', v') :: set k v d'
  end.

Definition keys (d : t) : list string := map fst d.
Definition values (d : t) : list V := map snd d.
End WithValue.

End Dict.

Definition Counter := Dict.t Z.

(** [c[k] += w] on a [Counter]: a missing key counts as 0. *)
Definition counter_add (k : string) (w : Z) (c : Counter) : Counter :=
  match Dict.get k c with
  | Some v => Dict.set k (v + w) c
  | None => Dict.set k (0 + w) c
  end.

(** [c[k] += w] for each [(k, w)] of a stream, in order. *)
Definition add_entries (es : list (string * Z)) (c : Counter) : Counter :=
  fold_left (fun c e => counter_add (fst e) (snd e) c) es c.

(** The weight a [Counter] reports for a key ([c[k]], 0 when missing). *)
Definition counter_weight (c : Counter) (k : string) : Z :=
  match Dict.get k c with
  | Some v => v
  | None => 0
  end.

Section Sorting.
Variable A : Type.
Variable key : A -> Z.

(** [x] stood before every element of [s] in the input: it is placed
    before the first element whose key is not larger than its own. *)
Fixpoint insert_desc (x : A) (s : list A) : list A :=
  match s with
  | [] => [x]
  | y :: s' => if key x <? key y then y :: insert_desc x s' else x :: s
  end.

(** [sorted(l, key=key, reverse=True)]: a stable sort, largest key first;
    elements with equal keys keep the order they had in [l]. *)
Fixpoint sorted_desc (l : list A) : list A :=
  match l with
  | [] => []
  | x :: l' => insert_desc x (sorted_desc l')
  end.

Definition ge_key (x y : A) : Prop := key x >= key y.

(** [l[:n]]: a negative [n] counts from the end. *)
Definition slice_to (n : Z) (l : list A) : list A :=
  if 0 <=? n then firstn (Z.to_nat n) l
  else firstn (Z.to_nat (Z.of_nat (List.length l) + n)) l.
End Sorting.

(** [Counter.most_common(n)] is [heapq.nlargest(n, items, key=count)], that
    is [sorted(items, key=count, reverse=True)[:n]] for [n >= 0] and the
    empty list for a negative [n]. *)
Definition most_common (n : Z) (c : Counter) : list (string * Z) :=
  firstn (Z.to_nat n) (sorted_desc snd c).

(** ** Data model *)

(** A document of the [ratings] collection.  A field that is absent (or
    [None]) is [None] here. *)
Record RatingDoc := {
  r_user_id : string;
  r_book_id : string;
  r_rating : option Z;
  r_categories : option (list string);
  r_authors : option (list string)
}.

(** An element of ["items"] in a Google Books response. *)
Record Volume := {
  v_id : option string;
  v_title : option string;
  v_authors : option (list (option string));
  v_categories : option (list (option string))
}.

(** The dictionary [normalize_book] builds; the fields the engine never
    reads are represented by [title]. *)
Record Book := {
  book_id : option string;
  title : option string;
  authors : list (option string);
  categories : list (option string)
}.

(** ** Awaited I/O *)

Inductive event :=
| StoreFind (user_id : string)
| HttpGet (q : string) (max_results : Z).

Inductive exn :=
| HTTPError     (* httpx.HTTPError: timeout, transport error, error status *)
| ValueError.   (* r.json() on a body that is not JSON *)

Inductive outcome (A : Type) :=
| Returned (a : A)
| Raised (e : exn).
Arguments Returned {A} a.
Arguments Raised {A} e.

Definition IO (A : Type) : Type := list event * outcome A.

Definition ret {A} (a : A) : IO A := ([], Returned a).

Definition bind {A B} (m : IO A) (f : A -> IO B) : IO B :=
  match m with
  | (tr, Returned a) => let (tr', r) := f a in (tr ++ tr', r)
  | (tr, Raised e) => (tr, Raised e)
  end.

Notation "x <- m ;; k" := (bind m (fun x => k))
  (at level 61, m at next level, right associativity).
Notation "' pat <- m ;; k" := (bind m (fun x => match x with pat => k end))
  (at level 61, pat pattern, m at next level, right associativity).

Definition trace {A} (m : IO A) : list event := fst m.
Definition result {A} (m : IO A) : outcome A := snd m.

(** [try: x = m  except <caught>: return h] followed by [k x]. *)
Definition try_except {A B} (m : IO A) (caught : exn -> bool)
    (h : IO B) (k : A -> IO B) : IO B :=
  match m with
  | (tr, Returned a) => let (tr', r) := k a in (tr ++ tr', r)
  | (tr, Raised e) =>
      if caught e then let (tr', r) := h in (tr ++ tr', r) else (tr, Raised e)
  end.

(** [await asyncio.gather] over the tasks: every task runs (none is cancelled when
    a sibling raises); the results come back in task order; if a task
    raised, the call raises.  The trace lists the tasks' events in task
    order. *)
Fixpoint gather {A} (tasks : list (IO A)) : IO (list A) :=
  match tasks with
  | [] => ret []
  | (tr, o) :: ts =>
      let (tr', os) := gather ts in
      (tr ++ tr',
       match o, os with
       | Returned a, Returned l => Returned (a :: l)
       | Raised e, _ => Raised e
       | Returned _, Raised e => Raised e
       end)
  end.

(** What the outside world answers. *)
Inductive http_response :=
| RespHTTPError
| RespNotJSON
| RespJSON (items : option (list Volume)).

Record World := {
  ratings : list RatingDoc;
  http : string -> Z -> http_response
}.

(** ** [app/google_books.py] *)

(** The body of the [try]: [client.get], [raise_for_status], [r.json()].
    The API key only adds a request parameter and is left out. *)
Definition http_get_json (w : World) (q : string) (max_results : Z)
  : IO (option (list Volume)) :=
  ([HttpGet q max_results],
   match http w q max_results with
   | RespHTTPError => Raised HTTPError
   | RespNotJSON => Raised ValueError
   | RespJSON items => Returned items
   end).

Definition normalize_book (item : Volume) : Book :=
  {| book_id := v_id item;
     title := v_title item;
     authors := match v_authors item with Some l => l | None => [] end;
     categories := match v_categories item with Some l => l | None => [] end |}.

Definition is_HTTPError (e : exn) : bool :=
  match e with HTTPError => true | _ => false end.

Definition search_books_by_keywords (w : World) (q : string) (max_results : Z)
  : IO (list Book) :=
  try_except (http_get_json w q max_results) is_HTTPError
    (ret [])
    (fun data =>
       let items := match data with Some l => l | None => [] end in
       ret (map normalize_book items)).

Definition search_books_by_genre (w : World) (genre : string) (max_results : Z) :=
  search_books_by_keywords w ("subject:" ++ genre)%string max_results.

Definition search_books_by_author (w : World) (author : string) (max_results : Z) :=
  search_books_by_keywords w ("inauthor:" ++ author)%string max_results.

(** ** [app/recommender.py] *)

(** [ratings_col.find({"user_id": user_id})], iterated to its end. *)
Definition find_ratings (w : World) (user_id : string) : IO (list RatingDoc) :=
  ([StoreFind user_id],
   Returned (filter (fun r => String.eqb (r_user_id r) user_id) (ratings w))).

(** [r.get("rating", 0)] *)
Definition rating_or_0 (r : RatingDoc) : Z :=
  match r_rating r with
  | Some x => x
  | None => 0
  end.

(** [if f in r and r[f]: for g in r[f]: counts[g.lower()] += rating] *)
Definition count_field (field : option (list string)) (rating : Z)
    (counts : Counter) : Counter :=
  match field with
  | Some (g :: gs) =>
      fold_left (fun c x => counter_add (Str.lower x) rating c) (g :: gs) counts
  | _ => counts
  end.

(** The body of the loop over the user's rating documents. *)
Definition count_record (st : Counter * Counter) (r : RatingDoc)
  : Counter * Counter :=
  (count_field (r_categories r) (rating_or_0 r) (fst st),
   count_field (r_authors r) (rating_or_0 r) (snd st)).

Definition get_user_top_genres_and_authors (w : World) (user_id : string)
    (top_n : Z) : IO (list string * list string) :=
  rs <- find_ratings w user_id ;;
  let counts := fold_left count_record rs ([], []) in
  let top_genres := map fst (most_common top_n (fst counts)) in
  let top_authors := map fst (most_common top_n (snd counts)) in
  ret (top_genres, top_authors).

(** Step 2 of [recommend_for_user]: one task per genre, one per author, and
    the two generic subjects when there is none. *)
Definition build_tasks (w : World) (top_genres top_authors : list string)
  : list (IO (list Book)) :=
  let tasks :=
    map (fun g => search_books_by_genre w g 10) top_genres ++
    map (fun a => search_books_by_author w a 10) top_authors in
  match tasks with
  | [] => [search_books_by_genre w "fiction" 15;
           search_books_by_genre w "nonfiction" 15]
  | _ :: _ => tasks
  end.

(** A value of the [scored] dictionary. *)
Record Scored := { score : Z; book : Book }.

(** [any(x in (c or <empty>).lower() for c in fields)] *)
Definition matches_any (x : string) (fields : list (option string)) : bool :=
  existsb (fun c => Str.is_substring x (Str.lower (Str.or_empty c))) fields.

Definition BASE : Z := 2.          (* 1.0 *)
Definition GENRE_BOOST : Z := 4.   (* 2.0 *)
Definition AUTHOR_BOOST : Z := 5.  (* 2.5 *)
Definition NOVELTY : Z := 1.       (* 0.5 *)

(** Lines 54-65: the score of book [b], whose id is [bid]. *)
Definition score_book (top_genres top_authors rated_ids : list string)
    (b : Book) (bid : string) : Z :=
  let s := BASE in
  let s := fold_left
             (fun s g => if matches_any g (categories b) then s + GENRE_BOOST else s)
             top_genres s in
  let s := fold_left
             (fun s a => if matches_any a (authors b) then s + AUTHOR_BOOST else s)
             top_authors s in
  if negb (Str.mem bid rated_ids) then s + NOVELTY else s.

(** Lines 51-68: the body of the loop over the candidate pool. *)
Definition score_step (top_genres top_authors rated_ids : list string)
    (scored : Dict.t Scored) (b : Book) : Dict.t Scored :=
  match book_id b with
  | None => scored
  | Some EmptyString => scored
  | Some bid =>
      let s := score_book top_genres top_authors rated_ids b bid in
      match Dict.get bid scored with
      | None => Dict.set bid {| score := s; book := b |} scored
      | Some old =>
          if s >? score old then Dict.set bid {| score := s; book := b |} scored
          else scored
      end
  end.

(** The [scored] dictionary after the loop over [flat]. *)
Definition dedup (top_genres top_authors rated_ids : list string)
    (flat : list Book) : Dict.t Scored :=
  fold_left (score_step top_genres top_authors rated_ids) flat [].

(** Lines 44-72 without the store read: scoring, de-duplication, sorting
    and truncation of the pool [flat].  [rated_ids] lists the elements that
    were added to the set; only membership is ever asked of it. *)
Definition rank_candidates (flat : list Book)
    (top_genres top_authors rated_ids : list string) (limit : Z) : list Book :=
  let scored := dedup top_genres top_authors rated_ids flat in
  let sorted_books := sorted_desc score (Dict.values scored) in
  map book (slice_to limit sorted_books).

Definition recommend_for_user (w : World) (user_id : string) (limit : Z)
  : IO (list Book) :=
  ' (top_genres, top_authors) <- get_user_top_genres_and_authors w user_id 3 ;;
  results <- gather (build_tasks w top_genres top_authors) ;;
  let flat := List.concat results in
  rs <- find_ratings w user_id ;;
  let rated_ids := map r_book_id rs in
  ret (rank_candidates flat top_genres top_authors rated_ids limit).

(** ** The properties as the specification words them *)

Module Spec.

(** [x] is a case-insensitive substring of [c]. *)
Definition ci_substring (x c : string) : bool :=
  Str.is_substring (Str.lower x) (Str.lower c).

(** [x] is a case-insensitive substring of at least one of [fields]. *)
Definition ci_matches (x : string) (fields : list (option string)) : bool :=
  existsb (fun c => ci_substring x (Str.or_empty c)) fields.

Definition count_if {A} (p : A -> bool) (l : list A) : Z :=
  Z.of_nat (List.length (filter p l)).

(** 1.0, plus 2.0 per matching profile genre, plus 2.5 per matching
    profile author, plus 0.5 if the id is not already rated (in halves). *)
Definition score (top_genres top_authors rated_ids : list string)
    (b : Book) (bid : string) : Z :=
  2 + 4 * count_if (fun g => ci_matches g (categories b)) top_genres
    + 5 * count_if (fun a => ci_matches a (authors b)) top_authors
    + (if Str.mem bid rated_ids then 0 else 1).

(** The candidate carries the id [bid]. *)
Definition has_id (bid : string) (b : Book) : bool :=
  match book_id b with
  | Some x => String.eqb x bid
  | None => false
  end.

(** The id is present and not empty. *)
Definition valid_id (b : Book) : Prop :=
  exists bid, book_id b = Some bid /\ bid <> EmptyString.

(** Among the occurrences [occs] (in pool order) [b] is the kept one:
    no occurrence scores higher, and every earlier one scores lower. *)
Definition kept_occurrence (f : Book -> Z) (occs : list Book) (b : Book) : Prop :=
  exists pre post,
    occs = pre ++ b :: post /\
    Forall (fun x => f x < f b) pre /\
    Forall (fun x => f x <= f b) post.

(** The fallback query set: the two generic subjects, 15 results each. *)
Definition fallback_queries : list (string * Z) :=
  [("subject:fiction"%string, 15); ("subject:nonfiction"%string, 15)].

(** One genre-scoped query per profile genre and one author-scoped query
    per profile author; the fallback set when both lists are empty. *)
Definition planned_queries (top_genres top_authors : list string)
  : list (string * Z) :=
  match top_genres, top_authors with
  | [], [] => fallback_queries
  | _, _ =>
      map (fun g => (("subject:" ++ g)%string, 10)) top_genres ++
      map (fun a => (("inauthor:" ++ a)%string, 10)) top_authors
  end.

(** What one query adds to the pool: its normalized items, and nothing
    when the provider failed with an HTTP error. *)
Definition contribution (w : World) (qn : string * Z) : list Book :=
  match http w (fst qn) (snd qn) with
  | RespHTTPError => []
  | RespNotJSON => []
  | RespJSON None => []
  | RespJSON (Some items) => map normalize_book items
  end.

(** The rating documents of one user, in store order. *)
Definition user_records (w : World) (user_id : string) : list RatingDoc :=
  filter (fun r => String.eqb (r_user_id r) user_id) (ratings w).

(** The stream the extractor folds over: for each record, for each string
    of the field, the lower-cased string with the record's rating (0 when
    the record has none).  A record without the field adds nothing. *)
Definition entries (field : RatingDoc -> option (list string))
    (rs : list RatingDoc) : list (string * Z) :=
  flat_map
    (fun r => match field r with
              | Some gs => map (fun g => (Str.lower g, rating_or_0 r)) gs
              | None => []
              end) rs.

Definition sum (l : list Z) : Z := fold_right Z.add 0 l.

(** The accumulated weight of [k]: the sum of the ratings of the stream
    entries keyed [k]. *)
Definition accumulated (es : list (string * Z)) (k : string) : Z :=
  sum (map snd (filter (fun e => String.eqb (fst e) k) es)).

(** The distinct strings of a stream in the order of their first
    occurrence. *)
Fixpoint first_seen (l : list string) : list string :=
  match l with
  | [] => []
  | x :: l' => x :: filter (fun y => negb (String.eqb x y)) (first_seen l')
  end.

(** [ranked] lists the keys with their weights by descending weight, keys
    of equal weight in the order of [keys]. *)
Definition ranking (weight : string -> Z) (keys : list string)
    (ranked : list (string * Z)) : Prop :=
  let items := map (fun k => (k, weight k)) keys in
  Permutation ranked items /\
  StronglySorted (fun x y => snd x >= snd y) ranked /\
  forall v, filter (fun x => snd x =? v) ranked =
            filter (fun x => snd x =? v) items.

(** The profile is the first [top_n] keys of the two rankings. *)
Definition profile_of (top_n : Z) (granked aranked : list (string * Z))
  : list string * list string :=
  (map fst (firstn (Z.to_nat top_n) granked),
   map fst (firstn (Z.to_nat top_n) aranked)).

End Spec.

(** The candidates of the specification's scenario. *)
Definition book_A1 : Book :=
  {| book_id := Some "A1"%string; title := None;
     authors := [Some "Jane Doe"%string];
     categories := [Some "Fiction"%string] |}.

Definition book_B2 : Book :=
  {| book_id := Some "B2"%string; title := None;
     authors := [Some "John Roe"%string];
     categories := [Some "Fiction"%string] |}.

(** What holds of the [scored] dictionary once the candidates [done] have
    been through the loop. *)
Definition dedup_inv (tg ta rated : list string) (done : list Book)
    (d : Dict.t Scored) : Prop :=
  NoDup (Dict.keys d) /\
  (forall bid, bid <> EmptyString -> Dict.get bid d = None ->
               filter (Spec.has_id bid) done = []) /\
  (forall bid s, Dict.get bid d = Some s ->
     bid <> EmptyString /\
     book_id (book s) = Some bid /\
     score s = score_book tg ta rated (book s) bid /\
     Spec.kept_occurrence (fun x => score_book tg ta rated x bid)
       (filter (Spec.has_id bid) done) (book s)).

(** The HTTP requests of a trace, in order. *)
Fixpoint queries_issued (tr : list event) : list (string * Z) :=
  match tr with
  | [] => []
  | HttpGet q n :: tr' => (q, n) :: queries_issued tr'
  | StoreFind _ :: tr' => queries_issued tr'
  end.

(** The profile [recommend_for_user] works with. *)
Definition extracted_profile (w : World) (user_id : string)
  : list string * list string :=
  match result (get_user_top_genres_and_authors w user_id 3) with
  | Returned p => p
  | Raised _ => ([], [])
  end.

(** The ids [recommend_for_user] adds to [rated_ids]. *)
Definition rated_ids_of (w : World) (user_id : string) : list string :=
  map r_book_id (Spec.user_records w user_id).

(** No ratings at all; every search fails with an HTTP error. *)
Definition empty_world : World :=
  {| ratings := []; http := fun _ _ => RespHTTPError |}.

(** One rating of "u"; the genre query answers with a body that is not
    JSON, the author query answers with A1. *)
Definition not_json_world : World :=
  {| ratings := [ {| r_user_id := "u"; r_book_id := "A1"; r_rating := Some 10;
                     r_categories := Some ["fiction"%string];
                     r_authors := Some ["Jane Doe"%string] |} ];
     http := fun q _ =>
       if String.eqb q "subject:fiction" then RespNotJSON
       else RespJSON (Some [ {| v_id := Some "A1"%string; v_title := None;
                                v_authors := Some [Some "Jane Doe"%string];
                                v_categories := Some [Some "Fiction"%string] |} ]) |}.

(** The request is refused before any I/O. *)
Definition rejected_before_io {A} (m : IO A) : Prop :=
  trace m = [] /\ exists e, result m = Raised e.

(** The two dimensions of a profile. *)
Inductive dimension := Genres | Authors.

Definition field_of (dim : dimension) : RatingDoc -> option (list string) :=
  match dim with
  | Genres => r_categories
  | Authors => r_authors
  end.

Definition pick {A} (dim : dimension) (p : A * A) : A :=
  match dim with
  | Genres => fst p
  | Authors => snd p
  end.

(** [genre_counts] and [author_counts] after the loop over the user's
    rating documents. *)
Definition final_counts (w : World) (user_id : string) : Counter * Counter :=
  fold_left count_record (Spec.user_records w user_id) ([], []).

(** A rating document without a [rating] field next to a rated one. *)
Definition unrated_world : World :=
  {| ratings := [ {| r_user_id := "u"; r_book_id := "B1"; r_rating := None;
                     r_categories := Some ["Poetry"%string];
                     r_authors := Some ["Ann Poe"%string] |};
                  {| r_user_id := "u"; r_book_id := "B2"; r_rating := Some 10;
                     r_categories := Some ["Drama"%string];
                     r_authors := None |} ];
     http := fun _ _ => RespHTTPError |}.

(** ** [app/recommender.py]: the entry points without personalization *)

Definition recommend_by_genre (w : World) (genre : string) (limit : Z)
  : IO (list Book) :=
  search_books_by_genre w genre limit.

Definition recommend_by_author (w : World) (author : string) (limit : Z)
  : IO (list Book) :=
  search_books_by_author w author limit.

(** The score the loop computes for a book, under the id it carries. *)
Definition score_of (tg ta rated : list string) (b : Book) : Z :=
  score_book tg ta rated b (Str.or_empty (book_id b)).

(** The non-empty ids of the pool, in pool order. *)
Definition valid_ids (flat : list Book) : list string :=
  flat_map (fun b => match book_id b with
                     | Some (String c s) => [String c s]
                     | _ => []
                     end) flat.

(** The first book of each non-empty id, in pool order; [seen] lists the
    ids that are already taken. *)
Fixpoint first_by_id (seen : list string) (flat : list Book) : list Book :=
  match flat with
  | [] => []
  | b :: flat' =>
      match book_id b with
      | Some (String c s) =>
          if Str.mem (String c s) seen then first_by_id seen flat'
          else b :: first_by_id (seen ++ [String c s]) flat'
      | _ => first_by_id seen flat'
      end
  end.

(** The book's id is not among the rated ones. *)
Definition unrated (rated : list string) (b : Book) : bool :=
  negb (Str.mem (Str.or_empty (book_id b)) rated).

(** ** [app/main.py]: the rating routes, on the [ratings] collection *)

(** The body of [POST /ratings]; ratings in half stars.  The fields the
    engine never reads and the timestamp are left out. *)
Record RatingIn := {
  in_book_id : string;
  in_rating : Z;
  in_authors : option (list string);
  in_categories : option (list string)
}.

(** [Field(..., ge=0.5, le=5.0)] *)
Definition rating_in_range (r : RatingIn) : bool :=
  (1 <=? in_rating r) && (in_rating r <=? 10).

(** [doc = r.dict()] with [user_id] taken from the token. *)
Definition rating_doc (user_id : string) (r : RatingIn) : RatingDoc :=
  {| r_user_id := user_id;
     r_book_id := in_book_id r;
     r_rating := Some (in_rating r);
     r_categories := in_categories r;
     r_authors := in_authors r |}.

(** The filter [{"user_id": u, "book_id": b}]. *)
Definition same_rating (u b : string) (d : RatingDoc) : bool :=
  String.eqb (r_user_id d) u && String.eqb (r_book_id d) b.

(** [update_one(filter, {"$set": doc}, upsert=True)]: the first document
    that matches gets every field of [doc]; without a match [doc] is
    inserted. *)
Fixpoint update_one_upsert (u b : string) (doc : RatingDoc)
    (col : list RatingDoc) : list RatingDoc :=
  match col with
  | [] => [doc]
  | d :: col' =>
      if same_rating u b d then doc :: col'
      else d :: update_one_upsert u b doc col'
  end.

(** [delete_one(filter)]: the collection without the first document that
    matches, and [deleted_count]. *)
Fixpoint delete_one (u b : string) (col : list RatingDoc)
  : list RatingDoc * Z :=
  match col with
  | [] => ([], 0)
  | d :: col' =>
      if same_rating u b d then (col', 1)
      else let (rest, n) := delete_one u b col' in (d :: rest, n)
  end.

Inductive status := Created_201 | OK_200 | NotFound_404 | Unprocessable_422.

(** [POST /ratings] for the authenticated user [user_id]: the body is
    validated against [RatingIn] before the handler runs. *)
Definition add_rating (col : list RatingDoc) (user_id : string) (r : RatingIn)
  : list RatingDoc * status :=
  if rating_in_range r then
    (update_one_upsert user_id (in_book_id r) (rating_doc user_id r) col,
     Created_201)
  else (col, Unprocessable_422).

(** [DELETE /ratings/{book_id}] for the authenticated user [user_id]. *)
Definition delete_rating (col : list RatingDoc) (user_id book_id : string)
  : list RatingDoc * status :=
  let (col', deleted_count) := delete_one user_id book_id col in
  if deleted_count =? 0 then (col', NotFound_404) else (col', OK_200).

(** At most one rating document per user and book. *)
Definition unique_ratings (col : list RatingDoc) : Prop :=
  NoDup (map (fun d => (r_user_id d, r_book_id d)) col).

(** The collections the two routes can produce from an empty one. *)
Inductive reachable : list RatingDoc -> Prop :=
| reach_empty : reachable []
| reach_add col u r : reachable col -> reachable (fst (add_rating col u r))
| reach_delete col u b : reachable col -> reachable (fst (delete_rating col u b)).

(** The world with another [ratings] collection. *)
Definition with_ratings (w : World) (col : list RatingDoc) : World :=
  {| ratings := col; http := http w |}.

(** The users whose ratings a trace reads, in order. *)
Fixpoint store_reads (tr : list event) : list string :=
  match tr with
  | [] => []
  | StoreFind u :: tr' => u :: store_reads tr'
  | HttpGet _ _ :: tr' => store_reads tr'
  end.

(** The field is absent or an empty list. *)
Definition no_metadata (field : option (list string)) : Prop :=
  field = None \/ field = Some [].

(** A rating that carries neither genres nor authors. *)
Definition bare_world : World :=
  {| ratings := [ {| r_user_id := "u"; r_book_id := "B1"; r_rating := Some 8;
                     r_categories := Some []; r_authors := None |} ];
     http := fun _ _ => RespJSON None |}.

(** The key of a rating document in the collection. *)
Definition rating_key (d : RatingDoc) : string * string :=
  (r_user_id d, r_book_id d).

(** The rating is present and within 0.5 .. 5.0. *)
Definition rating_stored_in_range (d : RatingDoc) : Prop :=
  exists x, r_rating d = Some x /\ 1 <= x <= 10.

(** A rating body used in examples: 4.0 stars for B9. *)
Definition sample_rating : RatingIn :=
  {| in_book_id := "B9"; in_rating := 8;
     in_authors := Some ["Ann Poe"%string];
     in_categories := Some ["Poetry"%string] |}.

(** ** [app/frontend.py]: ratings merged into the books that are shown *)

(** A book dictionary of the front end; [user_rating] is [None] while the
    key is absent, [Some None] when it holds [None]. *)
Record Shown := {
  shown : Book;
  user_rating : option (option Z)
}.

(** The outcome of [GET /ratings/me] followed by [r.json().get("ratings")]:
    any exception, or the entries with their ["book_id"] and ["rating"]. *)
Inductive ratings_fetch :=
| FetchFailed
| Fetched (rs : list (option string * option Z)).

Definition id_eqb (a b : option string) : bool :=
  match a, b with
  | Some x, Some y => String.eqb x y
  | None, None => true
  | _, _ => false
  end.

(** [ratings_lookup.get(book_id)] for the dictionary built by the
    comprehension: the last entry of an id wins; [None] without an entry. *)
Definition ratings_lookup (rs : list (option string * option Z))
    (book_id : option string) : option (option Z) :=
  fold_left (fun acc e => if id_eqb (fst e) book_id then Some (snd e) else acc)
            rs None.

(** [merge_user_ratings_with_books(books)]; [token] tells whether the
    session holds a token. *)
Definition merge_user_ratings_with_books (token : bool) (fetch : ratings_fetch)
    (books : list Shown) : list Shown :=
  match token, books with
  | false, _ => books
  | _, [] => books
  | true, _ :: _ =>
      match fetch with
      | FetchFailed => books
      | Fetched rs =>
          map (fun b =>
                 {| shown := shown b;
                    user_rating :=
                      Some (match ratings_lookup rs (book_id (shown b)) with
                            | Some v => v
                            | None => None
                            end) |}) books
      end
  end.

(** The [rec_items] part of the [index] view.  [featured] is the
    module-level list [SAMPLE_FEATURED]; [rec] is the outcome of the
    recommendation request ([None] when it raised).  When nothing was
    recommended [rec_items] is the list [SAMPLE_FEATURED] itself, whose
    dictionaries the merge then updates in place.  Returns the items given
    to the template and the list [SAMPLE_FEATURED] afterwards. *)
Definition index_rec_items (featured : list Shown) (token : bool)
    (rec : option (list Shown)) (fetch : ratings_fetch)
  : list Shown * list Shown :=
  match (match rec with Some items => items | None => [] end) with
  | [] =>
      let merged := merge_user_ratings_with_books token fetch featured in
      (merged, merged)
  | item :: items =>
      (merge_user_ratings_with_books token fetch (item :: items), featured)
  end.

(** Two of the featured books, as the module defines them. *)
Definition featured_sample : list Shown :=
  [ {| shown := {| book_id := Some "sample-1"%string;
                   title := Some "The Pragmatic Programmer"%string;
                   authors := [Some "Andrew Hunt"; Some "David Thomas"]%string;
                   categories := [Some "Software"%string] |};
       user_rating := None |};
    {| shown := {| book_id := Some "sample-2"%string;
                   title := Some "Clean Code"%string;
                   authors := [Some "Robert C. Martin"%string];
                   categories := [Some "Software"%string] |};
       user_rating := None |} ].

(** One book returned by three queries: without its categories, then twice
    with them (told apart by the title). *)
Definition book_C3_plain : Book :=
  {| book_id := Some "C3"%string; title := Some "first"%string;
     authors := []; categories := [] |}.

Definition book_C3_fiction : Book :=
  {| book_id := Some "C3"%string; title := Some "second"%string;
     authors := []; categories := [Some "Fiction"%string] |}.

Definition book_C3_fiction_again : Book :=
  {| book_id := Some "C3"%string; title := Some "third"%string;
     authors := []; categories := [Some "Fiction"%string] |}.

(** ** Profile extraction over the ratings as they are stored

    [get_user_top_genres_and_authors] once more, without the half-star grid:
    the ratings are numbers of a type [W] with the [0], [+] and [<] Python
    applies to them (floats, for the documents [POST /ratings] stores), and
    [lower] is [str.lower].  A rating field can be absent, hold [None] or
    hold a number, and the store read can fail. *)

Module Weighted.

Section Extraction.
Variable W : Type.
Variable zero : W.
Variable add : W -> W -> W.
Variable lt : W -> W -> bool.
Variable lower : string -> string.

Inductive rating_field :=
| NoKey                 (* the document has no "rating" *)
| NoneValue             (* "rating" is None *)
| Number (x : W).

Record Doc := {
  d_user_id : string;
  d_rating : rating_field;
  d_categories : option (list string);
  d_authors : option (list string)
}.

Inductive failure :=
| StoreUnavailable      (* the read of the ratings collection raised *)
| TypeError.            (* a number plus None *)

(** [c[k] += w]: a missing key counts as 0. *)
Definition counter_add (k : string) (w : W) (c : Dict.t W) : Dict.t W :=
  match Dict.get k c with
  | Some v => Dict.set k (add v w) c
  | None => Dict.set k (add zero w) c
  end.

(** [for g in field: counts[g.lower()] += w] *)
Definition add_all (field : list string) (w : W) (counts : Dict.t W) : Dict.t W :=
  fold_left (fun c g => counter_add (lower g) w c) field counts.

(** [c[k] += w] for each [(k, w)] of a stream, in order. *)
Definition add_entries (es : list (string * W)) (c : Dict.t W) : Dict.t W :=
  fold_left (fun c e => counter_add (fst e) (snd e) c) es c.

(** [if f in r and r[f]: for g in r[f]: counts[g.lower()] += r.get("rating", 0)] *)
Definition count_field (field : option (list string)) (rating : rating_field)
    (counts : Dict.t W) : failure + Dict.t W :=
  match field with
  | Some (g :: gs) =>
      match rating with
      | NoKey => inr (add_all (g :: gs) zero counts)
      | NoneValue => inl TypeError
      | Number x => inr (add_all (g :: gs) x counts)
      end
  | _ => inr counts
  end.

(** The body of the loop: categories first, then authors. *)
Definition count_record (st : Dict.t W * Dict.t W) (r : Doc)
  : failure + (Dict.t W * Dict.t W) :=
  match count_field (d_categories r) (d_rating r) (fst st) with
  | inl e => inl e
  | inr genre_counts =>
      match count_field (d_authors r) (d_rating r) (snd st) with
      | inl e => inl e
      | inr author_counts => inr (genre_counts, author_counts)
      end
  end.

(** The loop over the cursor; it stops at the first exception. *)
Fixpoint count_records (rs : list Doc) (st : Dict.t W * Dict.t W)
  : failure + (Dict.t W * Dict.t W) :=
  match rs with
  | [] => inr st
  | r :: rs' =>
      match count_record st r with
      | inl e => inl e
      | inr st' => count_records rs' st'
      end
  end.

(** [x] stood before every element of [s]: it goes before the first
    element it is not smaller than. *)
Fixpoint insert_desc (A : Type) (key : A -> W) (x : A) (s : list A) : list A :=
  match s with
  | [] => [x]
  | y :: s' => if lt (key x) (key y) then y :: insert_desc key x s' else x :: s
  end.

(** [sorted(l, key=key, reverse=True)] *)
Fixpoint sorted_desc (A : Type) (key : A -> W) (l : list A) : list A :=
  match l with
  | [] => []
  | x :: l' => insert_desc key x (sorted_desc key l')
  end.

(** [Counter.most_common(n)] *)
Definition most_common (n : Z) (c : Dict.t W) : list (string * W) :=
  firstn (Z.to_nat n) (sorted_desc snd c).

(** [store] is [None] when reading the collection raises, else the
    documents of the collection. *)
Definition get_user_top_genres_and_authors (store : option (list Doc))
    (user_id : string) (top_n : Z) : failure + (list string * list string) :=
  match store with
  | None => inl StoreUnavailable
  | Some col =>
      match count_records
              (filter (fun r => String.eqb (d_user_id r) user_id) col) ([], []) with
      | inl e => inl e
      | inr counts =>
          inr (map fst (most_common top_n (fst counts)),
               map fst (most_common top_n (snd counts)))
      end
  end.

(** *** The property, in the words of the specification *)

(** The number a record adds per entry: its rating, 0 without one. *)
Definition weight_of (r : Doc) : W :=
  match d_rating r with
  | Number x => x
  | _ => zero
  end.

(** The stream of (lower-cased string, rating) pairs of a field. *)
Definition entries (field : Doc -> option (list string)) (rs : list Doc)
  : list (string * W) :=
  flat_map
    (fun r => match field r with
              | Some gs => map (fun g => (lower g, weight_of r)) gs
              | None => []
              end) rs.

(** The running sum of the ratings of the entries keyed [k], added one by
    one to 0 in stream order. *)
Definition accumulated (es : list (string * W)) (k : string) : W :=
  fold_left add (map snd (filter (fun e => String.eqb (fst e) k) es)) zero.

(** Neither weight is smaller than the other. *)
Definition tie (a b : W) : bool := negb (lt a b) && negb (lt b a).

(** The keys with their weights in first-seen order. *)
Definition items (es : list (string * W)) : list (string * W) :=
  map (fun k => (k, accumulated es k)) (Spec.first_seen (map fst es)).

(** [ranked] lists the items by descending weight, items of tied weight
    in first-seen order. *)
Definition ranking (es : list (string * W)) (ranked : list (string * W)) : Prop :=
  Permutation ranked (items es) /\
  StronglySorted (fun x y => lt (snd x) (snd y) = false) ranked /\
  Forall (fun it =>
            filter (fun x => tie (snd x) (snd it)) ranked =
            filter (fun x => tie (snd x) (snd it)) (items es))
         (items es).

(** [<] orders the weights [ws] as it orders numbers: never both ways,
    and "not smaller" carries over.  It does for floats that are not NaN. *)
Definition ordered (ws : list W) : bool :=
  forallb (fun a =>
    forallb (fun b =>
      implb (lt a b) (negb (lt b a)) &&
      forallb (fun c =>
        implb (negb (lt a b) && negb (lt b c)) (negb (lt a c))) ws) ws) ws.

(** The documents of one user, in store order. *)
Definition user_docs (col : list Doc) (user_id : string) : list Doc :=
  filter (fun r => String.eqb (d_user_id r) user_id) col.

(** The profile is the first [top_n] keys of the two rankings. *)
Definition profile_of (top_n : Z) (granked aranked : list (string * W))
  : list string * list string :=
  (map fst (firstn (Z.to_nat top_n) granked),
   map fst (firstn (Z.to_nat top_n) aranked)).

(** A record whose rating is [None] carries no genres and no authors. *)
Definition none_rating_unused (r : Doc) : Prop :=
  d_rating r = NoneValue ->
  no_metadata (d_categories r) /\ no_metadata (d_authors r).

End Extraction.

End Weighted.

(** Ratings as Python floats: two genres rated 0.6, 0.6, 0.5 and
    0.5, 0.6, 0.6, the first of them seen first. *)
Definition float_ratings : list (Weighted.Doc PrimFloat.float) :=
  let doc (x : PrimFloat.float) (g : string) :=
    {| Weighted.d_user_id := "u"; Weighted.d_rating := Weighted.Number x;
       Weighted.d_categories := Some [g]; Weighted.d_authors := None |} in
  [ doc 0x1.3333333333333p-1%float "B"%string;     (* 0.6 *)
    doc 0.5%float "A"%string;
    doc 0x1.3333333333333p-1%float "B"%string;
    doc 0x1.3333333333333p-1%float "A"%string;
    doc 0.5%float "B"%string;
    doc 0x1.3333333333333p-1%float "A"%string ].

(** A document whose rating is [None] next to its genres. *)
Definition none_rating_store : list (Weighted.Doc Z) :=
  [ {| Weighted.d_user_id := "u"; Weighted.d_rating := Weighted.NoneValue Z;
       Weighted.d_categories := Some ["Poetry"%string];
       Weighted.d_authors := None |} ].

(** * Proofs *)

Unset Implicit Arguments.

(** Scenario of the specification: one 5.0 rating of A1. *)
Definition scenario_world : World :=
  {| ratings := [ {| r_user_id := "u"; r_book_id := "A1"; r_rating := Some 10;
                     r_categories := Some ["fiction"%string];
                     r_authors := Some ["Jane Doe"%string] |} ];
     http := fun q _ =>
       if String.eqb q "subject:fiction" then
         RespJSON (Some [ {| v_id := Some "B2"%string; v_title := None;
                             v_authors := Some [Some "John Roe"%string];
                             v_categories := Some [Some "Fiction"%string] |};
                          {| v_id := Some "A1"%string; v_title := None;
                             v_authors := Some [Some "Jane Doe"%string];
                             v_categories := Some [Some "Fiction"%string] |} ])
       else RespHTTPError |}.

Example scenario_order :
  result (recommend_for_user scenario_world "u" 20) =
  Returned (map normalize_book
    [ {| v_id := Some "A1"%string; v_title := None;
         v_authors := Some [Some "Jane Doe"%string];
         v_categories := Some [Some "Fiction"%string] |};
      {| v_id := Some "B2"%string; v_title := None;
         v_authors := Some [Some "John Roe"%string];
         v_categories := Some [Some "Fiction"%string] |} ]).
Proof. vm_compute. reflexivity. Qed.

(** ** Strings *)

Lemma lower_ascii_idem (c : ascii) :
  Str.lower_ascii (Str.lower_ascii c) = Str.lower_ascii c.
Proof. destruct c as [[] [] [] [] [] [] [] []]; reflexivity. Qed.

Lemma lower_idem (s : string) : Str.lower (Str.lower s) = Str.lower s.
Proof.
  induction s as [|c s IH]; simpl; [reflexivity|].
  now rewrite lower_ascii_idem, IH.
Qed.

Lemma mem_In (x : string) (xs : list string) :
  Str.mem x xs = true <-> In x xs.
Proof.
  unfold Str.mem. rewrite existsb_exists. split.
  - intros (y & Hy & E). apply String.eqb_eq in E. now subst.
  - intros H. exists x. split; [assumption | apply String.eqb_refl].
Qed.

Lemma mem_ext (x : string) (xs ys : list string) :
  (forall y, In y xs <-> In y ys) -> Str.mem x xs = Str.mem x ys.
Proof.
  intros H. apply eq_true_iff_eq. rewrite !mem_In. apply H.
Qed.

(** ** Dictionaries *)

Section DictFacts.
Variable V : Type.
Implicit Types (d : Dict.t V) (k : string) (v : V).

Lemma get_set_same k v d : Dict.get k (Dict.set k v d) = Some v.
Proof.
  induction d as [|[k' v'] d IH]; simpl.
  - now rewrite String.eqb_refl.
  - destruct (String.eqb k' k) eqn:E; simpl; rewrite E; auto.
Qed.

Lemma get_set_other k k' v d :
  k <> k' -> Dict.get k' (Dict.set k v d) = Dict.get k' d.
Proof.
  intros Hne. induction d as [|[k0 v0] d IH]; simpl.
  - destruct (String.eqb k k') eqn:E; [apply String.eqb_eq in E; contradiction | reflexivity].
  - destruct (String.eqb k0 k) eqn:E; simpl.
    + apply String.eqb_eq in E. subst k0.
      apply String.eqb_neq in Hne. now rewrite Hne.
    + now rewrite IH.
Qed.

Lemma get_None_keys k d : Dict.get k d = None <-> ~ In k (Dict.keys d).
Proof.
  induction d as [|[k0 v0] d IH]; simpl.
  - tauto.
  - destruct (String.eqb k0 k) eqn:E.
    + apply String.eqb_eq in E. subst. split; [discriminate | tauto].
    + apply String.eqb_neq in E. rewrite IH. tauto.
Qed.

Lemma get_Some_In k v d : Dict.get k d = Some v -> In (k, v) d.
Proof.
  induction d as [|[k0 v0] d IH]; simpl; [discriminate|].
  destruct (String.eqb k0 k) eqn:E.
  - apply String.eqb_eq in E. intros [= ->]. subst. now left.
  - intros H. right. auto.
Qed.

Lemma In_get_Some k v d :
  NoDup (Dict.keys d) -> In (k, v) d -> Dict.get k d = Some v.
Proof.
  induction d as [|[k0 v0] d IH]; simpl; [tauto|].
  intros Hnd [[= -> ->] | Hin].
  - now rewrite String.eqb_refl.
  - inversion Hnd as [|? ? Hnotin Hnd']; subst.
    destruct (String.eqb k0 k) eqn:E.
    + apply String.eqb_eq in E. subst. exfalso. apply Hnotin.
      change k with (fst (k, v)). now apply in_map.
    + auto.
Qed.

Lemma keys_set k v d :
  Dict.keys (Dict.set k v d) =
  if Str.mem k (Dict.keys d) then Dict.keys d else Dict.keys d ++ [k].
Proof.
  induction d as [|[k0 v0] d IH]; simpl; [reflexivity|].
  rewrite (String.eqb_sym k k0).
  destruct (String.eqb k0 k) eqn:E; simpl.
  - apply String.eqb_eq in E. now subst.
  - fold (Str.mem k (Dict.keys d)). unfold Dict.keys in *. rewrite IH.
    now destruct (Str.mem k (map fst d)).
Qed.

Lemma NoDup_keys_set k v d :
  NoDup (Dict.keys d) -> NoDup (Dict.keys (Dict.set k v d)).
Proof.
  intros H. rewrite keys_set.
  destruct (Str.mem k (Dict.keys d)) eqn:E; [assumption|].
  apply NoDup_app; [assumption | repeat constructor; simpl; tauto |].
  intros x Hx [<- | []].
  apply mem_In in Hx. congruence.
Qed.
End DictFacts.

(** ** The stable descending sort *)

Section SortFacts.
Variable A : Type.
Variable key : A -> Z.

Lemma insert_desc_perm x s : Permutation (insert_desc key x s) (x :: s).
Proof.
  induction s as [|y s IH]; simpl; [reflexivity|].
  destruct (key x <? key y); [|reflexivity].
  rewrite IH. apply perm_swap.
Qed.

Lemma sorted_desc_perm l : Permutation (sorted_desc key l) l.
Proof.
  induction l as [|x l IH]; simpl; [reflexivity|].
  rewrite insert_desc_perm. now constructor.
Qed.

Lemma insert_desc_sorted x s :
  StronglySorted (ge_key key) s -> StronglySorted (ge_key key) (insert_desc key x s).
Proof.
  induction s as [|y s IH]; simpl; intros Hs.
  - repeat constructor.
  - inversion Hs as [|? ? Hs' Hall]; subst.
    destruct (key x <? key y) eqn:E.
    + apply Z.ltb_lt in E. constructor; [auto|].
      eapply Permutation_Forall; [symmetry; apply insert_desc_perm|].
      constructor; [unfold ge_key; lia | assumption].
    + apply Z.ltb_ge in E. constructor; [assumption|].
      constructor; [unfold ge_key; lia|].
      eapply Forall_impl; [|exact Hall]. unfold ge_key. intros; lia.
Qed.

Lemma sorted_desc_sorted l : StronglySorted (ge_key key) (sorted_desc key l).
Proof.
  induction l as [|x l IH]; simpl; [constructor | now apply insert_desc_sorted].
Qed.

(** Stability: among the elements of one key the input order is kept. *)
Lemma insert_desc_stable v x s :
  filter (fun y => key y =? v) (insert_desc key x s) =
  filter (fun y => key y =? v) (x :: s).
Proof.
  induction s as [|y s IH]; [reflexivity|].
  cbn [insert_desc]. destruct (key x <? key y) eqn:E; [|reflexivity].
  apply Z.ltb_lt in E. cbn [filter] in *. rewrite IH.
  destruct (key y =? v) eqn:Ey, (key x =? v) eqn:Ex; try reflexivity.
  apply Z.eqb_eq in Ey, Ex. lia.
Qed.

Lemma sorted_desc_stable v l :
  filter (fun y => key y =? v) (sorted_desc key l) =
  filter (fun y => key y =? v) l.
Proof.
  induction l as [|x l IH]; [reflexivity|].
  cbn [sorted_desc]. rewrite insert_desc_stable. cbn [filter]. now rewrite IH.
Qed.

Lemma sorted_desc_length l : List.length (sorted_desc key l) = List.length l.
Proof. apply Permutation_length, sorted_desc_perm. Qed.

Lemma slice_to_nonneg n (l : list A) :
  0 <= n -> slice_to n l = firstn (Z.to_nat n) l.
Proof.
  intros H. unfold slice_to. destruct (0 <=? n) eqn:E; [reflexivity|].
  apply Z.leb_gt in E. lia.
Qed.

Lemma In_take (n : nat) (l : list A) x : In x (firstn n l) -> In x l.
Proof.
  intros H. rewrite <- (firstn_skipn n l). apply in_or_app. now left.
Qed.

Lemma NoDup_take (n : nat) (l : list A) : NoDup l -> NoDup (firstn n l).
Proof.
  intros H. rewrite <- (firstn_skipn n l) in H.
  now apply NoDup_app_remove_r in H.
Qed.

Lemma slice_to_incl n (l : list A) x : In x (slice_to n l) -> In x l.
Proof.
  unfold slice_to. destruct (0 <=? n); apply In_take.
Qed.

Lemma slice_to_take n (l : list A) : exists m, slice_to n l = firstn m l.
Proof.
  unfold slice_to. destruct (0 <=? n); eauto.
Qed.
End SortFacts.

(** ** Counters *)

Lemma counter_add_keys k w (c : Counter) :
  Dict.keys (counter_add k w c) =
  if Str.mem k (Dict.keys c) then Dict.keys c else Dict.keys c ++ [k].
Proof. unfold counter_add. destruct (Dict.get k c); apply keys_set. Qed.

Lemma counter_add_NoDup k w (c : Counter) :
  NoDup (Dict.keys c) -> NoDup (Dict.keys (counter_add k w c)).
Proof. unfold counter_add. destruct (Dict.get k c); apply NoDup_keys_set. Qed.

Lemma counter_add_weight k w (c : Counter) k' :
  counter_weight (counter_add k w c) k' =
  counter_weight c k' + (if String.eqb k k' then w else 0).
Proof.
  unfold counter_weight, counter_add.
  destruct (String.eqb k k') eqn:E.
  - apply String.eqb_eq in E. subst k'.
    destruct (Dict.get k c); now rewrite get_set_same.
  - apply String.eqb_neq in E.
    destruct (Dict.get k c); rewrite get_set_other by assumption;
      destruct (Dict.get k' c); lia.
Qed.

Lemma add_entries_app es1 es2 c :
  add_entries (es1 ++ es2) c = add_entries es2 (add_entries es1 c).
Proof. apply fold_left_app. Qed.

Lemma add_entries_NoDup es c :
  NoDup (Dict.keys c) -> NoDup (Dict.keys (add_entries es c)).
Proof.
  revert c. induction es as [|e es IH]; intros c H; simpl; [assumption|].
  apply IH. now apply counter_add_NoDup.
Qed.

Lemma add_entries_weight es c k :
  counter_weight (add_entries es c) k = counter_weight c k + Spec.accumulated es k.
Proof.
  revert c. induction es as [|[k0 w0] es IH]; intros c; simpl.
  - unfold Spec.accumulated. simpl. lia.
  - rewrite IH, counter_add_weight. unfold Spec.accumulated. simpl.
    destruct (String.eqb k0 k); simpl; lia.
Qed.

Lemma filter_filter {A} (p q : A -> bool) l :
  filter p (filter q l) = filter (fun x => q x && p x) l.
Proof.
  induction l as [|x l IH]; simpl; [reflexivity|].
  destruct (q x); simpl; [destruct (p x)|]; now rewrite IH.
Qed.

Lemma add_entries_keys es c :
  Dict.keys (add_entries es c) =
  Dict.keys c ++
  filter (fun k => negb (Str.mem k (Dict.keys c))) (Spec.first_seen (map fst es)).
Proof.
  revert c. induction es as [|[k0 w0] es IH]; intros c; simpl.
  - now rewrite app_nil_r.
  - rewrite IH, counter_add_keys, filter_filter.
    destruct (Str.mem k0 (Dict.keys c)) eqn:E; simpl.
    + f_equal. apply filter_ext. intros k.
      destruct (String.eqb k0 k) eqn:Ek; simpl; [|reflexivity].
      apply String.eqb_eq in Ek. subst k. now rewrite E.
    + rewrite <- app_assoc. simpl. do 2 f_equal. apply filter_ext. intros k.
      unfold Str.mem. rewrite existsb_app. simpl.
      rewrite orb_false_r, negb_orb, (String.eqb_sym k k0). apply andb_comm.
Qed.

Lemma counter_items (c : Counter) :
  NoDup (Dict.keys c) ->
  c = map (fun k => (k, counter_weight c k)) (Dict.keys c).
Proof.
  induction c as [|[k0 v0] c IH]; simpl; intros H; [reflexivity|].
  inversion H as [|? ? Hnotin Hnd]; subst.
  unfold counter_weight at 1. simpl. rewrite String.eqb_refl. f_equal.
  rewrite (IH Hnd) at 1. apply map_ext_in. intros k Hk.
  unfold counter_weight. simpl.
  destruct (String.eqb k0 k) eqn:E; [|reflexivity].
  apply String.eqb_eq in E. subst. contradiction.
Qed.

(** The counter built from a stream lists the keys in first-seen order,
    each with its accumulated weight. *)
Lemma add_entries_items es :
  add_entries es [] =
  map (fun k => (k, Spec.accumulated es k)) (Spec.first_seen (map fst es)).
Proof.
  rewrite (counter_items _ (add_entries_NoDup es [] (NoDup_nil _))) at 1.
  rewrite add_entries_keys.
  assert (Hall : forall l : list string,
             filter (fun k => negb (Str.mem k (Dict.keys (@nil (string * Z))))) l = l).
  { induction l as [|x l IHl]; [reflexivity|].
    simpl. f_equal. exact IHl. }
  rewrite Hall. simpl. apply map_ext. intros k.
  now rewrite add_entries_weight.
Qed.

Lemma count_field_entries field rating c :
  count_field field rating c =
  add_entries (match field with
               | Some gs => map (fun g => (Str.lower g, rating)) gs
               | None => []
               end) c.
Proof.
  unfold add_entries.
  destruct field as [[|g gs]|]; try reflexivity.
  unfold count_field. generalize (g :: gs). intros l. revert c.
  induction l as [|x l IH]; intros c; simpl; [reflexivity | apply IH].
Qed.

Lemma count_records rs c1 c2 :
  fold_left count_record rs (c1, c2) =
  (add_entries (Spec.entries r_categories rs) c1,
   add_entries (Spec.entries r_authors rs) c2).
Proof.
  revert c1 c2. induction rs as [|r rs IH]; intros c1 c2; [reflexivity|].
  simpl. unfold count_record at 2. simpl.
  rewrite IH, !add_entries_app, !count_field_entries. reflexivity.
Qed.

Lemma ranking_sorted (c : Counter) weight keys :
  c = map (fun k => (k, weight k)) keys ->
  Spec.ranking weight keys (sorted_desc snd c).
Proof.
  intros ->. repeat split.
  - apply sorted_desc_perm.
  - apply (sorted_desc_sorted _ snd).
  - intros v. apply sorted_desc_stable.
Qed.

(** ** Profile extraction *)

Lemma extract_profile_eq (w : World) (user_id : string) (top_n : Z) :
  get_user_top_genres_and_authors w user_id top_n =
  ([StoreFind user_id],
   Returned
     (map fst (most_common top_n
        (add_entries (Spec.entries r_categories (Spec.user_records w user_id)) [])),
      map fst (most_common top_n
        (add_entries (Spec.entries r_authors (Spec.user_records w user_id)) [])))).
Proof.
  unfold get_user_top_genres_and_authors, find_ratings, bind, ret.
  fold (Spec.user_records w user_id). now rewrite count_records.
Qed.

(** With ratings that are whole numbers of half stars: the profile is the
    first [top_n] keys of each dimension by descending accumulated weight,
    keys of equal weight in first-seen order. *)
Lemma half_star_profile_ranked (w : World) (user_id : string) (top_n : Z) :
  let rs := Spec.user_records w user_id in
  let ges := Spec.entries r_categories rs in
  let aes := Spec.entries r_authors rs in
  exists granked aranked,
    get_user_top_genres_and_authors w user_id top_n =
      ([StoreFind user_id], Returned (Spec.profile_of top_n granked aranked)) /\
    Spec.ranking (Spec.accumulated ges) (Spec.first_seen (map fst ges)) granked /\
    Spec.ranking (Spec.accumulated aes) (Spec.first_seen (map fst aes)) aranked.
Proof.
  intros rs ges aes.
  exists (sorted_desc snd (add_entries ges [])), (sorted_desc snd (add_entries aes [])).
  split; [apply extract_profile_eq|].
  split; apply ranking_sorted, add_entries_items.
Qed.

(** ** Scoring *)

Lemma first_seen_incl (l : list string) x : In x (Spec.first_seen l) -> In x l.
Proof.
  revert x. induction l as [|y l IH]; simpl; [tauto|].
  intros x [-> | H]; [now left|].
  apply filter_In in H. right. apply IH, H.
Qed.

Lemma entries_lowered field rs k :
  In k (map fst (Spec.entries field rs)) -> Str.lower k = k.
Proof.
  unfold Spec.entries. rewrite in_map_iff.
  intros ([k' v] & <- & H). apply in_flat_map in H.
  destruct H as (r & _ & H). destruct (field r) as [gs|]; [|contradiction].
  apply in_map_iff in H. destruct H as (g & [= <- _] & _).
  simpl. apply lower_idem.
Qed.

Lemma most_common_lowered n field rs :
  Forall (fun k => Str.lower k = k)
    (map fst (most_common n (add_entries (Spec.entries field rs) []))).
Proof.
  apply Forall_forall. intros k Hk.
  apply in_map_iff in Hk. destruct Hk as ([k' v] & <- & Hk).
  apply In_take in Hk.
  apply (Permutation_in _ (sorted_desc_perm _ snd _)) in Hk.
  rewrite add_entries_items in Hk. apply in_map_iff in Hk.
  destruct Hk as (k0 & [= <- _] & Hk0).
  apply first_seen_incl in Hk0. simpl. eapply entries_lowered, Hk0.
Qed.

(** Every string of an extracted profile is lower-cased. *)
Lemma profile_lowered w user_id top_n tg ta :
  result (get_user_top_genres_and_authors w user_id top_n) = Returned (tg, ta) ->
  Forall (fun k => Str.lower k = k) tg /\ Forall (fun k => Str.lower k = k) ta.
Proof.
  rewrite extract_profile_eq. simpl. intros [= <- <-].
  split; apply most_common_lowered.
Qed.

Lemma fold_boost {A} (p : A -> bool) (c : Z) (l : list A) (s0 : Z) :
  fold_left (fun s x => if p x then s + c else s) l s0 = s0 + c * Spec.count_if p l.
Proof.
  unfold Spec.count_if. revert s0.
  induction l as [|x l IH]; intros s0; simpl; [lia|].
  rewrite IH. destruct (p x); simpl; lia.
Qed.

Lemma matches_any_ci x fields :
  Str.lower x = x -> matches_any x fields = Spec.ci_matches x fields.
Proof.
  intros H. unfold matches_any, Spec.ci_matches, Spec.ci_substring.
  now rewrite H.
Qed.

Lemma count_if_ext_in {A} (p q : A -> bool) l :
  Forall (fun x => p x = q x) l -> Spec.count_if p l = Spec.count_if q l.
Proof.
  intros H. unfold Spec.count_if. f_equal. f_equal.
  apply filter_ext_in. now apply Forall_forall.
Qed.

Lemma score_book_spec tg ta rated b bid :
  Forall (fun k => Str.lower k = k) tg ->
  Forall (fun k => Str.lower k = k) ta ->
  score_book tg ta rated b bid = Spec.score tg ta rated b bid.
Proof.
  intros Hg Ha. unfold score_book, Spec.score, BASE, GENRE_BOOST, AUTHOR_BOOST, NOVELTY.
  rewrite !fold_boost.
  rewrite (count_if_ext_in (fun g => matches_any g (categories b))
             (fun g => Spec.ci_matches g (categories b)))
    by (eapply Forall_impl; [|exact Hg]; intros; now apply matches_any_ci).
  rewrite (count_if_ext_in (fun a => matches_any a (authors b))
             (fun a => Spec.ci_matches a (authors b)))
    by (eapply Forall_impl; [|exact Ha]; intros; now apply matches_any_ci).
  destruct (Str.mem bid rated); simpl; lia.
Qed.

Lemma score_step_valid tg ta rated scored b bid :
  book_id b = Some bid -> bid <> EmptyString ->
  score_step tg ta rated scored b =
  let s := score_book tg ta rated b bid in
  match Dict.get bid scored with
  | None => Dict.set bid {| score := s; book := b |} scored
  | Some old =>
      if s >? score old then Dict.set bid {| score := s; book := b |} scored
      else scored
  end.
Proof.
  intros Hid Hne. unfold score_step. rewrite Hid.
  destruct bid; [contradiction | reflexivity].
Qed.

(** C1: with the profile extracted for the user, the loop body gives a
    candidate with a non-empty id the score 1.0, plus 2.0 for each profile
    genre that is a case-insensitive substring of one of its categories,
    plus 2.5 for each profile author that is a case-insensitive substring
    of one of its authors, plus 0.5 exactly when its id is not among the
    rated ids (scores in half points). *)
Theorem score_formula w user_id top_n tg ta rated b bid :
  result (get_user_top_genres_and_authors w user_id top_n) = Returned (tg, ta) ->
  book_id b = Some bid -> bid <> EmptyString ->
  score_step tg ta rated [] b =
  [(bid, {| score := Spec.score tg ta rated b bid; book := b |})].
Proof.
  intros Hp Hid Hne. apply profile_lowered in Hp. destruct Hp as [Hg Ha].
  rewrite (score_step_valid _ _ _ _ _ bid Hid Hne). simpl.
  now rewrite score_book_spec.
Qed.

Lemma score_formula_witness :
  score_step ["fiction"%string] ["jane doe"%string] ["A1"%string] [] book_A1 =
  [("A1"%string, {| score := 11; book := book_A1 |})].
Proof.
  apply (score_formula scenario_world "u" 3 ["fiction"%string] ["jane doe"%string]
           ["A1"%string] book_A1 "A1");
    [reflexivity | reflexivity | discriminate].
Defined.

(** ** De-duplication *)

Lemma filter_snoc {A} (p : A -> bool) l x :
  filter p (l ++ [x]) = filter p l ++ (if p x then [x] else []).
Proof. rewrite filter_app. reflexivity. Qed.

Lemma has_id_other bid b :
  bid <> EmptyString -> ~ Spec.valid_id b -> Spec.has_id bid b = false.
Proof.
  intros Hne Hinv. unfold Spec.has_id.
  destruct (book_id b) as [x|] eqn:E; [|reflexivity].
  apply String.eqb_neq. intros ->. apply Hinv. now exists bid.
Qed.

Lemma has_id_of bid0 bid b :
  book_id b = Some bid0 -> Spec.has_id bid b = String.eqb bid0 bid.
Proof. intros H. unfold Spec.has_id. now rewrite H. Qed.

Lemma score_step_invalid tg ta rated d b :
  ~ Spec.valid_id b -> score_step tg ta rated d b = d.
Proof.
  intros H. unfold score_step.
  destruct (book_id b) as [[|c bid]|] eqn:E; try reflexivity.
  exfalso. apply H. exists (String c bid). split; [exact E | discriminate].
Qed.

Lemma valid_id_dec b : Spec.valid_id b \/ ~ Spec.valid_id b.
Proof.
  unfold Spec.valid_id. destruct (book_id b) as [[|c bid]|].
  - right. intros (x & [= <-] & H). now apply H.
  - left. eexists. split; [reflexivity | discriminate].
  - right. intros (x & [=] & _).
Qed.

Lemma dedup_inv_nil tg ta rated : dedup_inv tg ta rated [] [].
Proof.
  repeat split; try constructor; simpl in *; try discriminate.
Qed.

(** A candidate without a usable id leaves the dictionary alone. *)
Lemma dedup_inv_skip tg ta rated done d b :
  ~ Spec.valid_id b ->
  dedup_inv tg ta rated done d -> dedup_inv tg ta rated (done ++ [b]) d.
Proof.
  intros Hinv (Hnd & Hnone & Hsome). split; [assumption|]. split.
  - intros bid Hne Hget. rewrite filter_snoc, has_id_other by assumption.
    rewrite app_nil_r. auto.
  - intros bid s Hget. destruct (Hsome bid s Hget) as (Hne & H1 & H2 & H3).
    rewrite filter_snoc, has_id_other by assumption.
    rewrite app_nil_r. auto.
Qed.

Section DedupStep.
Variables tg ta rated : list string.
Variables (done : list Book) (d : Dict.t Scored) (b : Book) (bid0 : string).
Hypothesis Hinv : dedup_inv tg ta rated done d.
Hypothesis Hid : book_id b = Some bid0.
Hypothesis Hne0 : bid0 <> EmptyString.

Lemma occurrences_other bid :
  bid0 <> bid ->
  filter (Spec.has_id bid) (done ++ [b]) = filter (Spec.has_id bid) done.
Proof.
  intros Hneq. rewrite filter_snoc, (has_id_of bid0) by assumption.
  apply String.eqb_neq in Hneq. rewrite Hneq. apply app_nil_r.
Qed.

Lemma occurrences_same :
  filter (Spec.has_id bid0) (done ++ [b]) = filter (Spec.has_id bid0) done ++ [b].
Proof.
  rewrite filter_snoc, (has_id_of bid0) by assumption.
  now rewrite String.eqb_refl.
Qed.

(** [b] beats every earlier occurrence of its id and is stored. *)
Lemma dedup_inv_replace :
  Forall (fun x => score_book tg ta rated x bid0 < score_book tg ta rated b bid0)
    (filter (Spec.has_id bid0) done) ->
  dedup_inv tg ta rated (done ++ [b])
    (Dict.set bid0 {| score := score_book tg ta rated b bid0; book := b |} d).
Proof.
  intros Hall. destruct Hinv as (Hnd & Hnone & Hsome).
  split; [now apply NoDup_keys_set|]. split.
  - intros bid Hne Hget.
    destruct (String.eqb bid0 bid) eqn:E.
    + apply String.eqb_eq in E. subst bid. now rewrite get_set_same in Hget.
    + apply String.eqb_neq in E. rewrite get_set_other in Hget by assumption.
      rewrite occurrences_other by assumption. auto.
  - intros bid s Hget.
    destruct (String.eqb bid0 bid) eqn:E.
    + apply String.eqb_eq in E. subst bid. rewrite get_set_same in Hget.
      injection Hget as <-. simpl. repeat split; try assumption.
      exists (filter (Spec.has_id bid0) done), []. rewrite occurrences_same.
      repeat split; [assumption | constructor].
    + apply String.eqb_neq in E. rewrite get_set_other in Hget by assumption.
      rewrite occurrences_other by assumption. auto.
Qed.

(** [b] does not beat the stored occurrence [old], which stays. *)
Lemma dedup_inv_keep old :
  Dict.get bid0 d = Some old ->
  score_book tg ta rated b bid0 <= score old ->
  dedup_inv tg ta rated (done ++ [b]) d.
Proof.
  intros Hget0 Hle. destruct Hinv as (Hnd & Hnone & Hsome).
  split; [assumption|]. split.
  - intros bid Hne Hget.
    assert (bid0 <> bid) by congruence.
    rewrite occurrences_other by assumption. auto.
  - intros bid s Hget.
    destruct (String.eqb bid0 bid) eqn:E.
    + apply String.eqb_eq in E. subst bid.
      assert (s = old) by congruence. subst s.
      destruct (Hsome bid0 old Hget0)
        as (Hne & H1 & H2 & pre & post & Hocc & Hpre & Hpost).
      repeat split; try assumption.
      exists pre, (post ++ [b]). rewrite occurrences_same, Hocc, <- app_assoc.
      repeat split; [assumption|].
      apply Forall_app. split; [assumption|].
      constructor; [|constructor]. rewrite <- H2. exact Hle.
    + apply String.eqb_neq in E. rewrite occurrences_other by assumption. auto.
Qed.

Lemma dedup_inv_valid :
  dedup_inv tg ta rated (done ++ [b]) (score_step tg ta rated d b).
Proof.
  rewrite (score_step_valid _ _ _ _ _ bid0 Hid Hne0). cbv zeta.
  destruct (Dict.get bid0 d) as [old|] eqn:Hget0.
  - destruct (score_book tg ta rated b bid0 >? score old) eqn:Egt.
    + apply Z.gtb_lt in Egt. apply dedup_inv_replace.
      destruct Hinv as (_ & _ & Hsome).
      destruct (Hsome bid0 old Hget0)
        as (_ & _ & H2 & pre & post & -> & Hpre & Hpost).
      apply Forall_app. split; [|constructor].
      * eapply Forall_impl; [|exact Hpre]. cbv beta. intros; lia.
      * lia.
      * eapply Forall_impl; [|exact Hpost]. cbv beta. intros; lia.
    + apply (dedup_inv_keep old Hget0).
      rewrite Z.gtb_ltb in Egt. now apply Z.ltb_ge in Egt.
  - apply dedup_inv_replace.
    destruct Hinv as (_ & Hnone & _). rewrite (Hnone bid0 Hne0 Hget0). constructor.
Qed.
End DedupStep.

Lemma dedup_inv_step tg ta rated done d b :
  dedup_inv tg ta rated done d ->
  dedup_inv tg ta rated (done ++ [b]) (score_step tg ta rated d b).
Proof.
  intros H. destruct (valid_id_dec b) as [(bid0 & Hid & Hne0) | Hinv].
  - now apply (dedup_inv_valid tg ta rated done d b bid0).
  - rewrite score_step_invalid by assumption. now apply dedup_inv_skip.
Qed.

Lemma dedup_inv_fold tg ta rated rest done d :
  dedup_inv tg ta rated done d ->
  dedup_inv tg ta rated (done ++ rest) (fold_left (score_step tg ta rated) rest d).
Proof.
  revert done d. induction rest as [|b rest IH]; intros done d H; simpl.
  - now rewrite app_nil_r.
  - replace (done ++ b :: rest) with ((done ++ [b]) ++ rest)
      by (rewrite <- app_assoc; reflexivity).
    apply IH. now apply dedup_inv_step.
Qed.

Lemma dedup_inv_dedup tg ta rated flat :
  dedup_inv tg ta rated flat (dedup tg ta rated flat).
Proof. apply (dedup_inv_fold tg ta rated flat [] []), dedup_inv_nil. Qed.

(** ** Ranking *)

Lemma NoDup_map_Some {A} (l : list A) : NoDup l -> NoDup (map Some l).
Proof.
  induction 1 as [|x l Hx Hnd IH]; simpl; constructor; [|assumption].
  rewrite in_map_iff. intros (y & [= ->] & Hy). contradiction.
Qed.

Lemma dedup_value_entry tg ta rated flat s :
  In s (Dict.values (dedup tg ta rated flat)) ->
  exists bid, Dict.get bid (dedup tg ta rated flat) = Some s.
Proof.
  intros H. apply in_map_iff in H. destruct H as ([bid s'] & <- & Hin).
  exists bid. apply In_get_Some; [|assumption].
  apply dedup_inv_dedup.
Qed.

Lemma dedup_ids tg ta rated flat :
  map (fun s => book_id (book s)) (Dict.values (dedup tg ta rated flat)) =
  map Some (Dict.keys (dedup tg ta rated flat)).
Proof.
  destruct (dedup_inv_dedup tg ta rated flat) as (Hnd & _ & Hsome).
  unfold Dict.values, Dict.keys. rewrite !map_map.
  apply map_ext_in. intros [bid s] Hin. simpl.
  apply (In_get_Some _ _ _ _ Hnd) in Hin. now apply Hsome in Hin.
Qed.

Lemma rank_candidates_eq flat tg ta rated limit :
  exists m,
    rank_candidates flat tg ta rated limit =
    map book (firstn m (sorted_desc score (Dict.values (dedup tg ta rated flat)))).
Proof.
  unfold rank_candidates.
  destruct (slice_to_take _ limit
              (sorted_desc score (Dict.values (dedup tg ta rated flat)))) as (m & ->).
  now exists m.
Qed.

Lemma rank_candidates_NoDup flat tg ta rated limit :
  NoDup (map book_id (rank_candidates flat tg ta rated limit)).
Proof.
  destruct (rank_candidates_eq flat tg ta rated limit) as (m & ->).
  rewrite map_map, <- firstn_map. apply NoDup_take.
  eapply Permutation_NoDup.
  - apply Permutation_map. symmetry. apply sorted_desc_perm.
  - rewrite dedup_ids. apply NoDup_map_Some, dedup_inv_dedup.
Qed.

(** Every returned book is the kept occurrence of its (usable) id. *)
Lemma rank_candidates_kept flat tg ta rated limit b :
  In b (rank_candidates flat tg ta rated limit) ->
  exists bid,
    book_id b = Some bid /\ bid <> EmptyString /\
    Spec.kept_occurrence (fun x => score_book tg ta rated x bid)
      (filter (Spec.has_id bid) flat) b.
Proof.
  intros H. destruct (rank_candidates_eq flat tg ta rated limit) as (m & E).
  rewrite E in H. apply in_map_iff in H. destruct H as (s & <- & Hs).
  apply In_take in Hs.
  apply (Permutation_in _ (sorted_desc_perm _ score _)) in Hs.
  apply dedup_value_entry in Hs. destruct Hs as (bid & Hget).
  destruct (dedup_inv_dedup tg ta rated flat) as (_ & _ & Hsome).
  destruct (Hsome bid s Hget) as (Hne & Hid & _ & Hkept).
  exists bid. auto.
Qed.

Lemma has_id_In bid b flat :
  In b flat -> book_id b = Some bid -> In b (filter (Spec.has_id bid) flat).
Proof.
  intros Hin Hid. apply filter_In. split; [assumption|].
  rewrite (has_id_of bid) by assumption. apply String.eqb_refl.
Qed.

(** Every non-empty id of the pool has its kept occurrence in the
    [scored] dictionary. *)
Lemma dedup_has_kept flat tg ta rated b bid :
  In b flat -> book_id b = Some bid -> bid <> EmptyString ->
  exists kept,
    Dict.get bid (dedup tg ta rated flat) =
      Some {| score := score_book tg ta rated kept bid; book := kept |} /\
    Spec.kept_occurrence (fun x => score_book tg ta rated x bid)
      (filter (Spec.has_id bid) flat) kept.
Proof.
  intros Hin Hid Hne.
  destruct (dedup_inv_dedup tg ta rated flat) as (_ & Hnone & Hsome).
  destruct (Dict.get bid (dedup tg ta rated flat)) as [s|] eqn:Hget.
  - destruct (Hsome bid s Hget) as (_ & _ & Hsc & Hkept).
    exists (book s). split; [|assumption].
    destruct s as [sc bk]. simpl in *. now rewrite Hsc.
  - exfalso. pose proof (has_id_In bid b flat Hin Hid) as Hocc.
    rewrite (Hnone bid Hne Hget) in Hocc. contradiction.
Qed.

(** C3: for every non-empty id of the pool, however often it occurs, one
    occurrence is kept in the [scored] dictionary: an occurrence of
    maximal score among those of the id, and the first such in pool order
    (on a tie the first scored wins).  It is in the output unless the
    limit is smaller than the number of entries of the dictionary.  An id
    occurs at most once in the output, and every returned book is the
    kept occurrence of its id. *)
Theorem dedup_keeps_first_best flat tg ta rated limit b bid :
  In b flat -> book_id b = Some bid -> bid <> EmptyString ->
  (exists kept,
     Spec.kept_occurrence (fun x => score_book tg ta rated x bid)
       (filter (Spec.has_id bid) flat) kept /\
     Dict.get bid (dedup tg ta rated flat) =
       Some {| score := score_book tg ta rated kept bid; book := kept |} /\
     (In kept (rank_candidates flat tg ta rated limit) \/
      limit < Z.of_nat (List.length (Dict.keys (dedup tg ta rated flat))))) /\
  NoDup (map book_id (rank_candidates flat tg ta rated limit)) /\
  Forall
    (fun b' => exists bid',
       book_id b' = Some bid' /\ bid' <> EmptyString /\
       Spec.kept_occurrence (fun x => score_book tg ta rated x bid')
         (filter (Spec.has_id bid') flat) b')
    (rank_candidates flat tg ta rated limit).
Proof.
  intros Hin Hid Hne. split; [|split].
  - destruct (dedup_has_kept flat tg ta rated b bid Hin Hid Hne)
      as (kept & Hget & Hkept).
    exists kept. split; [assumption|]. split; [assumption|].
    destruct (Z_lt_dec limit
                (Z.of_nat (List.length (Dict.keys (dedup tg ta rated flat)))))
      as [Hcut | Hall]; [now right|].
    left. unfold rank_candidates.
    assert (Hlim : 0 <= limit) by lia.
    rewrite slice_to_nonneg by assumption.
    rewrite firstn_all2.
    + apply in_map_iff.
      exists {| score := score_book tg ta rated kept bid; book := kept |}.
      split; [reflexivity|].
      apply (Permutation_in _ (Permutation_sym (sorted_desc_perm _ score _))).
      apply get_Some_In in Hget.
      now apply (in_map snd) in Hget.
    + rewrite sorted_desc_length. unfold Dict.values, Dict.keys in *.
      rewrite length_map in *. lia.
  - apply rank_candidates_NoDup.
  - apply Forall_forall. intros b' Hb'. now apply rank_candidates_kept in Hb'.
Qed.

Lemma dedup_keeps_first_best_witness :
  (exists kept,
     Spec.kept_occurrence (fun x => score_book ["fiction"%string] [] [] x "C3")
       (filter (Spec.has_id "C3")
          [book_C3_plain; book_B2; book_C3_fiction; book_C3_fiction_again]) kept /\
     Dict.get "C3"
       (dedup ["fiction"%string] [] []
          [book_C3_plain; book_B2; book_C3_fiction; book_C3_fiction_again]) =
       Some {| score := score_book ["fiction"%string] [] [] kept "C3"; book := kept |} /\
     (In kept
        (rank_candidates
           [book_C3_plain; book_B2; book_C3_fiction; book_C3_fiction_again]
           ["fiction"%string] [] [] 20) \/
      20 < Z.of_nat (List.length (Dict.keys
             (dedup ["fiction"%string] [] []
                [book_C3_plain; book_B2; book_C3_fiction; book_C3_fiction_again]))))) /\
  NoDup (map book_id
           (rank_candidates
              [book_C3_plain; book_B2; book_C3_fiction; book_C3_fiction_again]
              ["fiction"%string] [] [] 20)) /\
  Forall
    (fun b' => exists bid',
       book_id b' = Some bid' /\ bid' <> EmptyString /\
       Spec.kept_occurrence (fun x => score_book ["fiction"%string] [] [] x bid')
         (filter (Spec.has_id bid')
            [book_C3_plain; book_B2; book_C3_fiction; book_C3_fiction_again]) b')
    (rank_candidates
       [book_C3_plain; book_B2; book_C3_fiction; book_C3_fiction_again]
       ["fiction"%string] [] [] 20).
Proof.
  apply (dedup_keeps_first_best
           [book_C3_plain; book_B2; book_C3_fiction; book_C3_fiction_again]
           ["fiction"%string] [] [] 20 book_C3_plain "C3").
  - simpl. now left.
  - reflexivity.
  - discriminate.
Defined.

(** The same pool evaluated: of the three occurrences of C3 the second
    is returned (score 3.5, first of the two that reach it), once. *)
Example dedup_scenario :
  rank_candidates
    [book_C3_plain; book_B2; book_C3_fiction; book_C3_fiction_again]
    ["fiction"%string] [] [] 20 = [book_C3_fiction; book_B2] /\
  Dict.get "C3"
    (dedup ["fiction"%string] [] []
       [book_C3_plain; book_B2; book_C3_fiction; book_C3_fiction_again]) =
    Some {| score := 7; book := book_C3_fiction |}.
Proof. split; reflexivity. Qed.

Lemma rank_candidates_valid flat tg ta rated limit :
  Forall Spec.valid_id (rank_candidates flat tg ta rated limit).
Proof.
  apply Forall_forall. intros b Hb. apply rank_candidates_kept in Hb.
  destruct Hb as (bid & Hid & Hne & _). now exists bid.
Qed.

(** C4, amended: for a limit that is not negative the output is the books
    of the de-duplicated set, sorted by score descending and cut to the
    first [limit]; it is never longer than [limit], and nothing is cut
    when the set has at most [limit] elements.  The scores are not part of
    the output. *)
Theorem rank_sorted_truncated flat tg ta rated limit :
  0 <= limit ->
  exists ranked,
    Permutation ranked (Dict.values (dedup tg ta rated flat)) /\
    StronglySorted (ge_key score) ranked /\
    rank_candidates flat tg ta rated limit = map book (firstn (Z.to_nat limit) ranked) /\
    Z.of_nat (List.length (rank_candidates flat tg ta rated limit)) <= limit /\
    (Z.of_nat (List.length (Dict.values (dedup tg ta rated flat))) <= limit ->
     rank_candidates flat tg ta rated limit = map book ranked).
Proof.
  intros Hlim.
  exists (sorted_desc score (Dict.values (dedup tg ta rated flat))).
  unfold rank_candidates. rewrite slice_to_nonneg by assumption.
  split; [apply sorted_desc_perm|]. split; [apply sorted_desc_sorted|].
  split; [reflexivity|]. split.
  - rewrite length_map. pose proof (firstn_le_length (Z.to_nat limit)
      (sorted_desc score (Dict.values (dedup tg ta rated flat)))). lia.
  - intros Hlen. rewrite firstn_all2; [reflexivity|].
    rewrite sorted_desc_length. lia.
Qed.

Lemma rank_sorted_truncated_witness :
  exists ranked,
    Permutation ranked
      (Dict.values (dedup ["fiction"%string] ["jane doe"%string] ["A1"%string]
                      [book_B2; book_A1])) /\
    StronglySorted (ge_key score) ranked /\
    rank_candidates [book_B2; book_A1] ["fiction"%string] ["jane doe"%string]
      ["A1"%string] 1 = map book (firstn (Z.to_nat 1) ranked) /\
    Z.of_nat (List.length
      (rank_candidates [book_B2; book_A1] ["fiction"%string] ["jane doe"%string]
         ["A1"%string] 1)) <= 1 /\
    (Z.of_nat (List.length
       (Dict.values (dedup ["fiction"%string] ["jane doe"%string] ["A1"%string]
                       [book_B2; book_A1]))) <= 1 ->
     rank_candidates [book_B2; book_A1] ["fiction"%string] ["jane doe"%string]
       ["A1"%string] 1 = map book ranked).
Proof.
  apply (rank_sorted_truncated [book_B2; book_A1] ["fiction"%string]
           ["jane doe"%string] ["A1"%string] 1).
  lia.
Defined.

(** C4 as worded fails for a negative limit: the slice then drops the last
    element instead of returning nothing. *)
Lemma negative_limit_overflows :
  rank_candidates [book_A1; book_B2] [] [] [] (-1) = [book_A1] /\
  ~ Z.of_nat (List.length (rank_candidates [book_A1; book_B2] [] [] [] (-1))) <= -1.
Proof. split; [reflexivity | intros H; vm_compute in H; now apply H]. Qed.

Lemma score_book_rated_ext tg ta r1 r2 b bid :
  (forall x, In x r1 <-> In x r2) ->
  score_book tg ta r1 b bid = score_book tg ta r2 b bid.
Proof.
  intros H. unfold score_book. now rewrite (mem_ext bid r1 r2 H).
Qed.

Lemma score_step_rated_ext tg ta r1 r2 d b :
  (forall x, In x r1 <-> In x r2) ->
  score_step tg ta r1 d b = score_step tg ta r2 d b.
Proof.
  intros H. unfold score_step.
  destruct (book_id b) as [[|c bid]|]; try reflexivity.
  now rewrite (score_book_rated_ext tg ta r1 r2 b _ H).
Qed.

(** C9: two runs of scoring and ranking on the same pool (in the same
    order), the same profile and the same set of rated ids return the same
    list; the order in which the ids entered the set does not matter. *)
Theorem rank_deterministic flat tg ta r1 r2 limit :
  (forall x, In x r1 <-> In x r2) ->
  rank_candidates flat tg ta r1 limit = rank_candidates flat tg ta r2 limit.
Proof.
  intros H. unfold rank_candidates, dedup.
  assert (E : forall d, fold_left (score_step tg ta r1) flat d =
                        fold_left (score_step tg ta r2) flat d).
  { induction flat as [|b l IH]; intros d; simpl; [reflexivity|].
    now rewrite IH, (score_step_rated_ext tg ta r1 r2 d b H). }
  now rewrite E.
Qed.

Lemma rank_deterministic_witness :
  rank_candidates [book_B2; book_A1] ["fiction"%string] ["jane doe"%string]
    ["A1"; "B7"]%string 20 =
  rank_candidates [book_B2; book_A1] ["fiction"%string] ["jane doe"%string]
    ["B7"; "A1"; "B7"]%string 20.
Proof.
  apply (rank_deterministic [book_B2; book_A1] ["fiction"%string]
           ["jane doe"%string] ["A1"; "B7"]%string ["B7"; "A1"; "B7"]%string 20).
  intros x. simpl. tauto.
Defined.

(** ** Candidate retrieval *)

Lemma search_books_by_keywords_eq w q n :
  search_books_by_keywords w q n =
  ([HttpGet q n],
   match http w q n with
   | RespHTTPError => Returned []
   | RespNotJSON => Raised ValueError
   | RespJSON None => Returned []
   | RespJSON (Some items) => Returned (map normalize_book items)
   end).
Proof.
  unfold search_books_by_keywords, http_get_json, try_except.
  destruct (http w q n) as [| |[items|]]; reflexivity.
Qed.

Lemma build_tasks_planned w tg ta :
  build_tasks w tg ta =
  map (fun qn => search_books_by_keywords w (fst qn) (snd qn))
      (Spec.planned_queries tg ta).
Proof.
  assert (E : map (fun qn => search_books_by_keywords w (fst qn) (snd qn))
                (map (fun g => (("subject:" ++ g)%string, 10)) tg ++
                 map (fun a => (("inauthor:" ++ a)%string, 10)) ta) =
              map (fun g => search_books_by_genre w g 10) tg ++
              map (fun a => search_books_by_author w a 10) ta).
  { rewrite map_app, !map_map. reflexivity. }
  unfold build_tasks, Spec.planned_queries.
  destruct tg as [|g tg], ta as [|a ta]; try reflexivity; rewrite E; reflexivity.
Qed.

Lemma planned_queries_nonempty tg ta : Spec.planned_queries tg ta <> [].
Proof. destruct tg, ta; discriminate. Qed.

(** Every task of a [gather] over searches sends its request. *)
Lemma gather_search_trace w qs :
  queries_issued
    (trace (gather (map (fun qn => search_books_by_keywords w (fst qn) (snd qn)) qs))) = qs.
Proof.
  induction qs as [|[q n] qs IH]; [reflexivity|].
  cbn [map gather fst snd]. rewrite search_books_by_keywords_eq.
  destruct (gather _) as [tr os]. unfold trace in *. simpl in *. now rewrite IH.
Qed.

Lemma gather_search_result w qs :
  let g := gather (map (fun qn => search_books_by_keywords w (fst qn) (snd qn)) qs) in
  (Forall (fun qn => http w (fst qn) (snd qn) <> RespNotJSON) qs /\
   result g = Returned (map (Spec.contribution w) qs)) \/
  (Exists (fun qn => http w (fst qn) (snd qn) = RespNotJSON) qs /\
   result g = Raised ValueError).
Proof.
  induction qs as [|[q n] qs IH]; [left; split; [constructor | reflexivity]|].
  cbn [map gather fst snd] in *. rewrite search_books_by_keywords_eq.
  destruct (gather _) as [tr os]. unfold result in *. cbn [snd] in *.
  assert (Hc : Spec.contribution w (q, n) =
               match http w q n with
               | RespJSON (Some items) => map normalize_book items
               | _ => []
               end).
  { unfold Spec.contribution. cbn [fst snd]. now destruct (http w q n) as [| |[?|]]. }
  rewrite Hc. clear Hc.
  destruct (http w q n) as [| |[items|]] eqn:E.
  - destruct IH as [[Hall ->] | [Hex ->]].
    + left. split; [constructor; [cbn [fst snd]; congruence | assumption] | reflexivity].
    + right. split; [now apply Exists_cons_tl | reflexivity].
  - right. split; [now apply Exists_cons_hd | reflexivity].
  - destruct IH as [[Hall ->] | [Hex ->]].
    + left. split; [constructor; [cbn [fst snd]; congruence | assumption] | reflexivity].
    + right. split; [now apply Exists_cons_tl | reflexivity].
  - destruct IH as [[Hall ->] | [Hex ->]].
    + left. split; [constructor; [cbn [fst snd]; congruence | assumption] | reflexivity].
    + right. split; [now apply Exists_cons_tl | reflexivity].
Qed.

Lemma extracted_profile_eq w user_id :
  get_user_top_genres_and_authors w user_id 3 =
  ([StoreFind user_id], Returned (extracted_profile w user_id)).
Proof.
  unfold extracted_profile. now rewrite extract_profile_eq.
Qed.

Lemma queries_issued_app tr1 tr2 :
  queries_issued (tr1 ++ tr2) = queries_issued tr1 ++ queries_issued tr2.
Proof.
  induction tr1 as [|[u|q n] tr1 IH]; simpl; [reflexivity | assumption | now rewrite IH].
Qed.

(** The shape of a run of [recommend_for_user]. *)
Lemma recommend_for_user_eq w user_id limit :
  let p := extracted_profile w user_id in
  let g := gather (build_tasks w (fst p) (snd p)) in
  recommend_for_user w user_id limit =
  match result g with
  | Returned results =>
      (StoreFind user_id :: trace g ++ [StoreFind user_id],
       Returned (rank_candidates (List.concat results) (fst p) (snd p)
                   (rated_ids_of w user_id) limit))
  | Raised e => (StoreFind user_id :: trace g, Raised e)
  end.
Proof.
  intros p g. unfold recommend_for_user.
  rewrite extracted_profile_eq. fold p. destruct p as [tg ta].
  unfold bind at 1. cbn [fst snd] in *.
  destruct (gather (build_tasks w tg ta)) as [tr [results|e]] eqn:E;
    subst g; unfold result, trace; cbn [fst snd bind find_ratings ret].
  - rewrite app_nil_r. reflexivity.
  - reflexivity.
Qed.

Lemma recommend_queries w user_id limit :
  queries_issued (trace (recommend_for_user w user_id limit)) =
  Spec.planned_queries (fst (extracted_profile w user_id))
                       (snd (extracted_profile w user_id)).
Proof.
  pose proof (recommend_for_user_eq w user_id limit) as E. cbv zeta in E.
  rewrite E. clear E.
  rewrite build_tasks_planned.
  pose proof (gather_search_trace w
    (Spec.planned_queries (fst (extracted_profile w user_id))
                          (snd (extracted_profile w user_id)))) as T.
  destruct (result _); unfold trace at 1; cbn [fst queries_issued];
    rewrite ?queries_issued_app, T; simpl; now rewrite ?app_nil_r.
Qed.

(** ** The pipeline *)

(** C5, amended: a query that fails with an [httpx.HTTPError] (timeout,
    transport error, error status) contributes an empty list and nothing
    else changes: when no response body fails to decode, every query is
    sent, the pool is the concatenation of the queries' own contributions
    and the request returns.  (A body that is not JSON raises a
    [ValueError] that is not caught.) *)
Theorem http_errors_isolated w user_id limit :
  Forall (fun qn => http w (fst qn) (snd qn) <> RespNotJSON)
    (Spec.planned_queries (fst (extracted_profile w user_id))
                          (snd (extracted_profile w user_id))) ->
  (forall q n, http w q n = RespHTTPError ->
               search_books_by_keywords w q n = ([HttpGet q n], Returned [])) /\
  queries_issued (trace (recommend_for_user w user_id limit)) =
    Spec.planned_queries (fst (extracted_profile w user_id))
                         (snd (extracted_profile w user_id)) /\
  result (recommend_for_user w user_id limit) =
    Returned
      (rank_candidates
         (flat_map (Spec.contribution w)
            (Spec.planned_queries (fst (extracted_profile w user_id))
                                  (snd (extracted_profile w user_id))))
         (fst (extracted_profile w user_id)) (snd (extracted_profile w user_id))
         (rated_ids_of w user_id) limit).
Proof.
  intros Hok. split; [|split].
  - intros q n E. rewrite search_books_by_keywords_eq. now rewrite E.
  - apply recommend_queries.
  - pose proof (recommend_for_user_eq w user_id limit) as E. cbv zeta in E.
    rewrite E. clear E. rewrite build_tasks_planned.
    destruct (gather_search_result w
                (Spec.planned_queries (fst (extracted_profile w user_id))
                                      (snd (extracted_profile w user_id))))
      as [[_ Hres] | [Hex _]].
    + rewrite Hres. unfold result. cbn [snd]. now rewrite flat_map_concat_map.
    + exfalso. apply Exists_exists in Hex. destruct Hex as (qn & Hin & Hbad).
      rewrite Forall_forall in Hok. now apply (Hok qn Hin).
Qed.

Lemma http_errors_isolated_witness :
  result (recommend_for_user scenario_world "u" 20) = Returned [book_A1; book_B2].
Proof.
  apply (proj2 (proj2 (http_errors_isolated scenario_world "u" 20
    ltac:(repeat constructor; discriminate)))).
Defined.

(** C5 as worded fails: the body of the genre query's response is not
    JSON, the [ValueError] passes the [except httpx.HTTPError] clause and
    [gather], and the request fails although the author query succeeded. *)
Lemma undecodable_body_aborts :
  result (search_books_by_keywords not_json_world "subject:fiction" 10) =
    Raised ValueError /\
  result (search_books_by_keywords not_json_world "inauthor:jane doe" 10) =
    Returned [book_A1] /\
  result (recommend_for_user not_json_world "u" 20) = Raised ValueError.
Proof. repeat split. Qed.

(** C6: when the extracted profile has no genre and no author, the
    searches sent are exactly the two fallback queries; and no run sends
    zero queries. *)
Theorem empty_profile_fallback w user_id limit :
  extracted_profile w user_id = ([], []) ->
  queries_issued (trace (recommend_for_user w user_id limit)) = Spec.fallback_queries /\
  forall w' user_id' limit',
    queries_issued (trace (recommend_for_user w' user_id' limit')) <> [].
Proof.
  intros Hp. split.
  - rewrite recommend_queries, Hp. reflexivity.
  - intros w' u' l'. rewrite recommend_queries. apply planned_queries_nonempty.
Qed.

Lemma empty_profile_fallback_witness :
  queries_issued (trace (recommend_for_user empty_world "nobody" 20)) =
  Spec.fallback_queries.
Proof.
  apply (proj1 (empty_profile_fallback empty_world "nobody" 20 eq_refl)).
Defined.

(** C7: a candidate whose id is missing or empty leaves the [scored]
    dictionary as it is, and every book that is returned, by the ranking
    and by the whole pipeline, has an id that is present and not empty. *)
Theorem invalid_candidates_dropped w user_id limit :
  (forall tg ta rated d t a c,
     score_step tg ta rated d
       {| book_id := None; title := t; authors := a; categories := c |} = d /\
     score_step tg ta rated d
       {| book_id := Some EmptyString; title := t; authors := a; categories := c |} = d) /\
  (forall flat tg ta rated,
     Forall Spec.valid_id (rank_candidates flat tg ta rated limit)) /\
  match result (recommend_for_user w user_id limit) with
  | Returned out => Forall Spec.valid_id out
  | Raised _ => True
  end.
Proof.
  split; [|split].
  - intros. split; reflexivity.
  - intros. apply rank_candidates_valid.
  - pose proof (recommend_for_user_eq w user_id limit) as E. cbv zeta in E.
    rewrite E. clear E.
    destruct (result (gather _)); unfold result; cbn [snd]; [|exact I].
    apply rank_candidates_valid.
Qed.

(** C8, amended: [recommend_for_user] validates nothing.  For every user
    id (the empty one included) and every limit (zero and negative ones
    included) it starts by reading the rating store for that user id and,
    the store having answered, sends at least one search; the limit has no
    influence on the I/O that is performed.  No request is refused before
    I/O. *)
Theorem no_input_validation w user_id limit :
  (exists tr, trace (recommend_for_user w user_id limit) = StoreFind user_id :: tr) /\
  queries_issued (trace (recommend_for_user w user_id limit)) <> [] /\
  forall limit',
    trace (recommend_for_user w user_id limit') =
    trace (recommend_for_user w user_id limit).
Proof.
  split; [|split].
  - pose proof (recommend_for_user_eq w user_id limit) as E. cbv zeta in E.
    rewrite E. destruct (result (gather _)); unfold trace; cbn [fst]; eauto.
  - rewrite recommend_queries. apply planned_queries_nonempty.
  - intros limit'.
    pose proof (recommend_for_user_eq w user_id limit) as E. cbv zeta in E.
    pose proof (recommend_for_user_eq w user_id limit') as E'. cbv zeta in E'.
    rewrite E, E'. now destruct (result (gather _)).
Qed.

(** C8 as worded fails: an empty user id with limit 0 is not refused; the
    store is read twice, both fallback searches are sent, and the request
    returns a list. *)
Lemma empty_user_zero_limit_runs :
  recommend_for_user empty_world "" 0 =
    ([StoreFind ""; HttpGet "subject:fiction" 15; HttpGet "subject:nonfiction" 15;
      StoreFind ""], Returned []) /\
  ~ rejected_before_io (recommend_for_user empty_world "" 0).
Proof.
  split; [reflexivity|]. intros [Htr _]. discriminate Htr.
Qed.

(** ** Entries of weight zero *)

Lemma Permutation_filter {A} (p : A -> bool) (l l' : list A) :
  Permutation l l' -> Permutation (filter p l) (filter p l').
Proof.
  induction 1 as [| x l l' _ IH | x y l | l l' l'' _ IH1 _ IH2]; simpl.
  - constructor.
  - destruct (p x); [now constructor | assumption].
  - destruct (p x), (p y); try reflexivity. apply perm_swap.
  - now transitivity (filter p l').
Qed.

(** In a descending list the keys above a threshold come first. *)
Lemma sorted_split {A} (key : A -> Z) (t : Z) (l : list A) :
  StronglySorted (ge_key key) l ->
  l = filter (fun x => t <? key x) l ++ filter (fun x => negb (t <? key x)) l.
Proof.
  induction 1 as [|x l Hs IH Hall]; [reflexivity|]. simpl.
  destruct (t <? key x) eqn:E; simpl; [now rewrite <- IH|].
  apply Z.ltb_ge in E.
  assert (Hlow : Forall (fun y => (t <? key y) = false) l).
  { eapply Forall_impl; [|exact Hall]. unfold ge_key. intros y Hy.
    apply Z.ltb_ge. lia. }
  assert (Hsame : filter (fun y => t <? key y) l = [] /\
                  filter (fun y => negb (t <? key y)) l = l).
  { clear IH Hs Hall. induction Hlow as [|y l Hy _ [IH1 IH2]]; [now split|].
    simpl. rewrite Hy. simpl. split; [assumption | now f_equal]. }
  destruct Hsame as [-> ->]. reflexivity.
Qed.

Lemma sorted_app_tail {A} (key : A -> Z) (l1 l2 : list A) (x : A) :
  StronglySorted (ge_key key) (l1 ++ x :: l2) -> Forall (ge_key key x) l2.
Proof.
  induction l1 as [|y l1 IH]; simpl; intros H; apply StronglySorted_inv in H.
  - apply H.
  - apply IH, H.
Qed.

(** With fewer than [n] positive weights and a key of weight 0, a key of
    weight 0 is among the [n] most common. *)
Lemma zero_weight_slot (c : Counter) (n : Z) :
  Exists (fun kv => snd kv = 0) c ->
  Z.of_nat (List.length (filter (fun kv => 0 <? snd kv) c)) < n ->
  exists kv, In kv (most_common n c) /\ snd kv = 0.
Proof.
  intros Hex Hlen. unfold most_common.
  pose proof (sorted_desc_perm _ snd c) as Hperm.
  pose proof (sorted_desc_sorted _ snd c) as Hsorted.
  pose proof (sorted_split snd 0 _ Hsorted) as Hsplit.
  assert (Hpos : List.length (filter (fun x => 0 <? snd x) (sorted_desc snd c)) =
                 List.length (filter (fun kv => 0 <? snd kv) c)).
  { apply Permutation_length, Permutation_filter, Hperm. }
  apply Exists_exists in Hex. destruct Hex as (kv0 & Hin0 & Hz0).
  apply (Permutation_in _ (Permutation_sym Hperm)) in Hin0.
  assert (Hr0 : In kv0 (filter (fun x => negb (0 <? snd x)) (sorted_desc snd c))).
  { apply filter_In. split; [assumption|]. rewrite Hz0. reflexivity. }
  destruct (filter (fun x => negb (0 <? snd x)) (sorted_desc snd c))
    as [|z rest] eqn:Er; [contradiction|].
  assert (Hz : In z (filter (fun x => negb (0 <? snd x)) (sorted_desc snd c))).
  { rewrite Er. now left. }
  apply filter_In in Hz. destruct Hz as [_ Hzneg].
  apply negb_true_iff, Z.ltb_ge in Hzneg.
  exists z. split.
  - rewrite Hsplit, firstn_app. apply in_or_app. right.
    remember (filter (fun x => 0 <? snd x) (sorted_desc snd c)) as pos.
    destruct (Z.to_nat n - List.length pos)%nat as [|m] eqn:Em; [lia | now left].
  - destruct Hr0 as [-> | Hrest]; [assumption|].
    rewrite Hsplit in Hsorted. apply sorted_app_tail in Hsorted.
    rewrite Forall_forall in Hsorted. specialize (Hsorted kv0 Hrest).
    unfold ge_key in Hsorted. lia.
Qed.

Lemma first_seen_complete (l : list string) x : In x l -> In x (Spec.first_seen l).
Proof.
  induction l as [|y l IH]; simpl; [tauto|].
  intros [-> | H]; [now left|].
  destruct (String.eqb y x) eqn:E.
  - apply String.eqb_eq in E. now left.
  - right. apply filter_In. split; [auto | now rewrite E].
Qed.

Lemma final_counts_eq w user_id dim :
  pick dim (final_counts w user_id) =
  add_entries (Spec.entries (field_of dim) (Spec.user_records w user_id)) [].
Proof.
  unfold final_counts. rewrite count_records. now destruct dim.
Qed.

Lemma extract_profile_pick w user_id top_n dim :
  exists p,
    result (get_user_top_genres_and_authors w user_id top_n) = Returned p /\
    pick dim p = map fst (most_common top_n (pick dim (final_counts w user_id))).
Proof.
  rewrite extract_profile_eq. eexists. split; [reflexivity|].
  rewrite final_counts_eq. now destruct dim.
Qed.

Lemma accumulated_zero es k :
  Forall (fun e => snd e = 0) es -> Spec.accumulated es k = 0.
Proof.
  unfold Spec.accumulated. induction 1 as [|e es He _ IH]; simpl; [lia|].
  destruct (String.eqb (fst e) k); simpl; lia.
Qed.

Lemma entries_In field rs r gs g :
  In r rs -> field r = Some gs -> In g gs ->
  In (Str.lower g) (map fst (Spec.entries field rs)).
Proof.
  intros Hr Hf Hg. apply in_map_iff. exists (Str.lower g, rating_or_0 r).
  split; [reflexivity|]. apply in_flat_map. exists r. split; [assumption|].
  rewrite Hf. now apply (in_map (fun g => (Str.lower g, rating_or_0 r))).
Qed.

(** C10: a rating document without a [rating] field adds weight 0, yet its
    lower-cased strings become keys of the aggregation; when such a key
    still has weight 0 at the end and fewer than [top_n] keys have a
    positive weight, a key of weight 0 is part of the profile. *)
Theorem unrated_record_takes_slot w user_id top_n dim r gs g :
  In r (Spec.user_records w user_id) ->
  r_rating r = None -> field_of dim r = Some gs -> In g gs ->
  counter_weight (pick dim (final_counts w user_id)) (Str.lower g) = 0 ->
  Z.of_nat (List.length (filter (fun kv => 0 <? snd kv)
                           (pick dim (final_counts w user_id)))) < top_n ->
  (forall c k,
     counter_weight (count_field (field_of dim r) (rating_or_0 r) c) k =
     counter_weight c k) /\
  In (Str.lower g) (Dict.keys (pick dim (final_counts w user_id))) /\
  exists p k,
    result (get_user_top_genres_and_authors w user_id top_n) = Returned p /\
    In k (pick dim p) /\
    counter_weight (pick dim (final_counts w user_id)) k = 0.
Proof.
  intros Hr Hrating Hfield Hg Hzero Hlen.
  assert (Hkey : In (Str.lower g) (Dict.keys (pick dim (final_counts w user_id)))).
  { rewrite final_counts_eq, add_entries_items.
    unfold Dict.keys. rewrite map_map. cbn [fst]. rewrite map_id.
    apply first_seen_complete. now apply (entries_In _ _ r gs). }
  split; [|split; [exact Hkey|]].
  - intros c k. rewrite count_field_entries, add_entries_weight.
    rewrite accumulated_zero; [lia|].
    unfold rating_or_0. rewrite Hrating.
    destruct (field_of dim r) as [l|]; [|constructor].
    apply Forall_forall. intros e He. apply in_map_iff in He.
    now destruct He as (x & <- & _).
  - destruct (extract_profile_pick w user_id top_n dim) as (p & Hp & Hpick).
    assert (Hnd : NoDup (Dict.keys (pick dim (final_counts w user_id)))).
    { rewrite final_counts_eq. apply add_entries_NoDup. constructor. }
    destruct (zero_weight_slot (pick dim (final_counts w user_id)) top_n)
      as ([k v] & Hin & Hv).
    + apply Exists_exists.
      unfold Dict.keys in Hkey. apply in_map_iff in Hkey.
      destruct Hkey as ([k v] & Hk & Hin). simpl in Hk. subst k.
      exists (Str.lower g, v). split; [assumption|]. simpl.
      apply (In_get_Some _ _ _ _ Hnd) in Hin.
      unfold counter_weight in Hzero. now rewrite Hin in Hzero.
    + exact Hlen.
    + exists p, k. split; [exact Hp|]. split.
      * rewrite Hpick. now apply (in_map fst) in Hin.
      * simpl in Hv. subst v. apply In_take in Hin.
        apply (Permutation_in _ (sorted_desc_perm _ snd _)) in Hin.
        apply (In_get_Some _ _ _ _ Hnd) in Hin.
        unfold counter_weight. now rewrite Hin.
Qed.

Lemma unrated_record_takes_slot_witness :
  exists p k,
    result (get_user_top_genres_and_authors unrated_world "u" 3) = Returned p /\
    In k (pick Genres p) /\
    counter_weight (pick Genres (final_counts unrated_world "u")) k = 0.
Proof.
  apply (unrated_record_takes_slot unrated_world "u" 3 Genres
           {| r_user_id := "u"; r_book_id := "B1"; r_rating := None;
              r_categories := Some ["Poetry"%string];
              r_authors := Some ["Ann Poe"%string] |}
           ["Poetry"%string] "Poetry"%string).
  - simpl. now left.
  - reflexivity.
  - reflexivity.
  - simpl. now left.
  - reflexivity.
  - vm_compute. reflexivity.
Defined.

Example unrated_profile :
  result (get_user_top_genres_and_authors unrated_world "u" 3) =
  Returned (["drama"; "poetry"]%string, ["ann poe"%string]).
Proof. reflexivity. Qed.

(** * Further properties *)

(** ** Scores *)

Lemma count_if_bounds {A} (p : A -> bool) (l : list A) :
  0 <= Spec.count_if p l <= Z.of_nat (List.length l).
Proof.
  unfold Spec.count_if. pose proof (filter_length_le p l). lia.
Qed.

Lemma score_book_bounds tg ta rated b bid :
  2 <= score_book tg ta rated b bid <=
  2 + 4 * Z.of_nat (List.length tg) + 5 * Z.of_nat (List.length ta) + 1.
Proof.
  unfold score_book, BASE, GENRE_BOOST, AUTHOR_BOOST, NOVELTY.
  rewrite !fold_boost.
  pose proof (count_if_bounds (fun g => matches_any g (categories b)) tg) as H1.
  pose proof (count_if_bounds (fun a => matches_any a (authors b)) ta) as H2.
  set (c1 := Spec.count_if _ tg) in *. set (c2 := Spec.count_if _ ta) in *.
  destruct (negb (Str.mem bid rated)); cbv iota; lia.
Qed.

Lemma most_common_length n (c : Counter) :
  Z.of_nat (List.length (most_common n c)) <= Z.max 0 n.
Proof.
  unfold most_common. pose proof (firstn_le_length (Z.to_nat n) (sorted_desc snd c)). lia.
Qed.

Lemma extracted_profile_value w user_id :
  extracted_profile w user_id =
  (map fst (most_common 3
     (add_entries (Spec.entries r_categories (Spec.user_records w user_id)) [])),
   map fst (most_common 3
     (add_entries (Spec.entries r_authors (Spec.user_records w user_id)) []))).
Proof. unfold extracted_profile. now rewrite extract_profile_eq. Qed.

(** X1: with the profile [recommend_for_user] extracts (at most three
    genres and three authors) every score lies between 1.0 and 15.0. *)
Theorem pipeline_score_range w user_id rated b bid :
  2 <= score_book (fst (extracted_profile w user_id))
         (snd (extracted_profile w user_id)) rated b bid <= 30.
Proof.
  pose proof (score_book_bounds (fst (extracted_profile w user_id))
                (snd (extracted_profile w user_id)) rated b bid) as H.
  rewrite extracted_profile_value in *. cbn [fst snd] in *.
  rewrite !length_map in H.
  pose proof (most_common_length 3
    (add_entries (Spec.entries r_categories (Spec.user_records w user_id)) [])).
  pose proof (most_common_length 3
    (add_entries (Spec.entries r_authors (Spec.user_records w user_id)) [])).
  lia.
Qed.

Lemma count_if_snoc {A} (p : A -> bool) (l : list A) (x : A) :
  Spec.count_if p (l ++ [x]) = Spec.count_if p l + (if p x then 1 else 0).
Proof.
  unfold Spec.count_if. rewrite filter_app, length_app, Nat2Z.inj_add.
  simpl. now destruct (p x).
Qed.

(** X2: one more profile genre adds exactly 2.0 to the score of a book it
    matches and nothing to the score of any other book; one more profile
    author adds exactly 2.5 or nothing. *)
Theorem score_one_more_signal tg ta rated b bid x :
  score_book (tg ++ [x]) ta rated b bid =
    score_book tg ta rated b bid + (if matches_any x (categories b) then 4 else 0) /\
  score_book tg (ta ++ [x]) rated b bid =
    score_book tg ta rated b bid + (if matches_any x (authors b) then 5 else 0).
Proof.
  unfold score_book, BASE, GENRE_BOOST, AUTHOR_BOOST, NOVELTY.
  rewrite !fold_boost, !count_if_snoc.
  destruct (matches_any x (categories b)), (matches_any x (authors b)),
    (negb (Str.mem bid rated)); split; lia.
Qed.

(** ** The de-duplicated set *)

Lemma score_step_keys tg ta rated d b :
  Dict.keys (score_step tg ta rated d b) =
  match book_id b with
  | Some (String c s) =>
      if Str.mem (String c s) (Dict.keys d) then Dict.keys d
      else Dict.keys d ++ [String c s]
  | _ => Dict.keys d
  end.
Proof.
  unfold score_step. destruct (book_id b) as [[|c s]|]; try reflexivity.
  destruct (Dict.get (String c s) d) as [old|] eqn:E.
  - assert (Hin : Str.mem (String c s) (Dict.keys d) = true).
    { apply mem_In. destruct (in_dec string_dec (String c s) (Dict.keys d)) as [H|H];
        [assumption|]. apply get_None_keys in H. congruence. }
    destruct (_ >? _); [rewrite keys_set|]; now rewrite Hin.
  - apply keys_set.
Qed.

Lemma dedup_keys_from tg ta rated flat d :
  Dict.keys (fold_left (score_step tg ta rated) flat d) =
  Dict.keys d ++
  filter (fun k => negb (Str.mem k (Dict.keys d))) (Spec.first_seen (valid_ids flat)).
Proof.
  revert d. induction flat as [|b flat IH]; intros d.
  - simpl. now rewrite app_nil_r.
  - cbn [fold_left]. rewrite IH, score_step_keys.
    unfold valid_ids at 2. cbn [flat_map]. fold (valid_ids flat).
    destruct (book_id b) as [[|c s]|]; try reflexivity.
    remember (String c s) as bid eqn:Hbid. clear Hbid.
    cbn [app Spec.first_seen].
    destruct (Str.mem bid (Dict.keys d)) eqn:E.
    + cbn [filter]. rewrite E. cbn [negb]. rewrite filter_filter.
      f_equal. apply filter_ext. intros k.
      destruct (String.eqb bid k) eqn:Ek; [|reflexivity].
      apply String.eqb_eq in Ek. subst k. now rewrite E.
    + cbn [filter]. rewrite E. cbn [negb]. rewrite <- app_assoc, !filter_filter.
      cbn [app]. do 2 f_equal. apply filter_ext. intros k.
      unfold Str.mem. rewrite existsb_app. cbn [existsb].
      rewrite orb_false_r, negb_orb, (String.eqb_sym k bid).
      apply andb_comm.
Qed.

Lemma filter_true {A} (l : list A) : filter (fun _ => true) l = l.
Proof. induction l; simpl; congruence. Qed.

Lemma dedup_keys tg ta rated flat :
  Dict.keys (dedup tg ta rated flat) = Spec.first_seen (valid_ids flat).
Proof.
  unfold dedup. rewrite dedup_keys_from. simpl. apply filter_true.
Qed.

(** X3: for a limit that is not negative the pipeline's ranking returns
    exactly min(limit, number of distinct non-empty ids of the pool)
    books, and the ids it returns are non-empty ids of the pool. *)
Theorem output_count flat tg ta rated limit :
  0 <= limit ->
  Z.of_nat (List.length (rank_candidates flat tg ta rated limit)) =
    Z.min limit (Z.of_nat (List.length (Spec.first_seen (valid_ids flat)))) /\
  incl (map book_id (rank_candidates flat tg ta rated limit))
       (map Some (Spec.first_seen (valid_ids flat))).
Proof.
  intros Hlim. split.
  - unfold rank_candidates. rewrite slice_to_nonneg by assumption.
    rewrite length_map, length_firstn, sorted_desc_length.
    unfold Dict.values. rewrite length_map.
    rewrite <- (length_map fst (dedup tg ta rated flat)).
    fold (Dict.keys (dedup tg ta rated flat)). rewrite dedup_keys. lia.
  - intros x Hx. destruct (rank_candidates_eq flat tg ta rated limit) as (m & E).
    rewrite E, map_map in Hx. apply in_map_iff in Hx.
    destruct Hx as (s & <- & Hs). apply In_take in Hs.
    apply (Permutation_in _ (sorted_desc_perm _ score _)) in Hs.
    rewrite <- (dedup_keys tg ta rated), <- dedup_ids.
    now apply (in_map (fun s => book_id (book s))).
Qed.

Lemma output_count_witness :
  Z.of_nat (List.length
    (rank_candidates [book_A1; book_B2; book_A1] [] [] [] 5)) =
    Z.min 5 (Z.of_nat (List.length
      (Spec.first_seen (valid_ids [book_A1; book_B2; book_A1])))) /\
  incl (map book_id (rank_candidates [book_A1; book_B2; book_A1] [] [] [] 5))
       (map Some (Spec.first_seen (valid_ids [book_A1; book_B2; book_A1]))).
Proof.
  apply (output_count [book_A1; book_B2; book_A1] [] [] [] 5). lia.
Defined.

Lemma StronglySorted_take {A} (R : A -> A -> Prop) (n : nat) (l : list A) :
  StronglySorted R l -> StronglySorted R (firstn n l).
Proof.
  revert l. induction n as [|n IH]; intros l H; [constructor|].
  destruct l as [|x l]; [constructor|]. simpl.
  apply StronglySorted_inv in H. destruct H as [Hs Hall].
  constructor; [now apply IH|].
  apply Forall_forall. intros y Hy. apply In_take in Hy.
  rewrite Forall_forall in Hall. auto.
Qed.

Lemma dedup_scores tg ta rated flat :
  Forall (fun s => score s = score_of tg ta rated (book s))
    (Dict.values (dedup tg ta rated flat)).
Proof.
  apply Forall_forall. intros s Hs. apply dedup_value_entry in Hs.
  destruct Hs as (bid & Hget).
  destruct (dedup_inv_dedup tg ta rated flat) as (_ & _ & Hsome).
  destruct (Hsome bid s Hget) as (_ & Hid & Hsc & _).
  unfold score_of. now rewrite Hid.
Qed.

Lemma sorted_books (l : list Scored) (g : Book -> Z) :
  StronglySorted (ge_key score) l ->
  Forall (fun s => score s = g (book s)) l ->
  StronglySorted (ge_key g) (map book l).
Proof.
  induction 1 as [|s l Hs IH Hall]; intros Hg; simpl; [constructor|].
  inversion Hg as [|? ? Hgs Hgl]; subst.
  constructor; [now apply IH|].
  apply Forall_forall. intros b Hb. apply in_map_iff in Hb.
  destruct Hb as (s' & <- & Hs').
  rewrite Forall_forall in Hall, Hgl.
  specialize (Hall s' Hs'). specialize (Hgl s' Hs').
  unfold ge_key in *. lia.
Qed.

(** X4: in the returned list scores never increase: no book comes after
    a book with a lower score, whatever the limit. *)
Theorem output_scores_descend flat tg ta rated limit :
  StronglySorted (ge_key (score_of tg ta rated))
    (rank_candidates flat tg ta rated limit).
Proof.
  destruct (rank_candidates_eq flat tg ta rated limit) as (m & ->).
  apply sorted_books.
  - apply StronglySorted_take, sorted_desc_sorted.
  - apply Forall_forall. intros s Hs. apply In_take in Hs.
    apply (Permutation_in _ (sorted_desc_perm _ score _)) in Hs.
    pose proof (dedup_scores tg ta rated flat) as H.
    rewrite Forall_forall in H. auto.
Qed.

(** ** Ranking without a profile *)

Lemma set_absent {V} k (v : V) (d : Dict.t V) :
  Dict.get k d = None -> Dict.set k v d = d ++ [(k, v)].
Proof.
  induction d as [|[k0 v0] d IH]; simpl; [reflexivity|].
  destruct (String.eqb k0 k); [discriminate|]. intros H. now rewrite IH.
Qed.

Lemma get_app_None {V} k (d1 d2 : Dict.t V) :
  Dict.get k d1 = None -> Dict.get k (d1 ++ d2) = Dict.get k d2.
Proof.
  induction d1 as [|[k0 v0] d1 IH]; simpl; [reflexivity|].
  destruct (String.eqb k0 k); [discriminate | assumption].
Qed.

Lemma get_app_Some {V} k (v : V) (d1 d2 : Dict.t V) :
  Dict.get k d1 = Some v -> Dict.get k (d1 ++ d2) = Some v.
Proof.
  induction d1 as [|[k0 v0] d1 IH]; simpl; [discriminate|].
  destruct (String.eqb k0 k); auto.
Qed.

Lemma score_book_empty rated b bid :
  score_book [] [] rated b bid = if Str.mem bid rated then 2 else 3.
Proof. unfold score_book. simpl. now destruct (Str.mem bid rated). Qed.

Lemma mem_keys_get {V} k (d : Dict.t V) :
  Str.mem k (Dict.keys d) = match Dict.get k d with Some _ => true | None => false end.
Proof.
  destruct (Dict.get k d) eqn:E.
  - apply mem_In. destruct (in_dec string_dec k (Dict.keys d)) as [H|H];
      [assumption|]. apply get_None_keys in H. congruence.
  - apply get_None_keys in E. destruct (Str.mem k (Dict.keys d)) eqn:M;
      [|reflexivity]. apply mem_In in M. contradiction.
Qed.

Lemma dedup_empty_from rated flat (d : Dict.t Scored) :
  (forall k s, Dict.get k d = Some s -> score s = if Str.mem k rated then 2 else 3) ->
  fold_left (score_step [] [] rated) flat d =
  d ++ map (fun b => (Str.or_empty (book_id b),
                      {| score := score_of [] [] rated b; book := b |}))
           (first_by_id (Dict.keys d) flat).
Proof.
  revert d. induction flat as [|b flat IH]; intros d Hd.
  - simpl. now rewrite app_nil_r.
  - cbn [fold_left first_by_id]. unfold score_step at 2.
    destruct (book_id b) as [[|c s]|] eqn:Hid; try (now apply IH).
    remember (String c s) as bid eqn:Hbid.
    rewrite mem_keys_get.
    destruct (Dict.get bid d) as [old|] eqn:Hget.
    + rewrite (Hd bid old Hget), score_book_empty.
      replace ((if Str.mem bid rated then 2 else 3) >? (if Str.mem bid rated then 2 else 3))
        with false by (symmetry; rewrite Z.gtb_ltb; apply Z.ltb_irrefl).
      now apply IH.
    + rewrite (set_absent _ _ _ Hget), IH.
      * unfold Dict.keys at 1. rewrite map_app. cbn [map fst app].
        rewrite <- app_assoc. cbn [app]. do 2 f_equal.
        unfold score_of. rewrite Hid. reflexivity.
      * intros k s0 Hk. destruct (Dict.get k d) as [s1|] eqn:Hkd.
        -- rewrite (get_app_Some _ _ _ _ Hkd) in Hk. injection Hk as <-. now apply Hd.
        -- rewrite (get_app_None _ _ _ Hkd) in Hk. simpl in Hk.
           destruct (String.eqb bid k) eqn:Ek; [|discriminate].
           apply String.eqb_eq in Ek. subst k. injection Hk as <-.
           simpl. apply score_book_empty.
Qed.

Lemma filter_map_swap {A B} (f : A -> B) (p : B -> bool) (l : list A) :
  filter p (map f l) = map f (filter (fun x => p (f x)) l).
Proof.
  induction l as [|x l IH]; simpl; [reflexivity|].
  destruct (p (f x)); simpl; now rewrite IH.
Qed.

(** A stable descending sort of keys that take two values puts the
    larger ones first and keeps the input order inside each group. *)
Lemma sorted_two_levels {A} (key : A -> Z) (hi lo : Z) (l : list A) :
  lo < hi ->
  Forall (fun x => key x = hi \/ key x = lo) l ->
  sorted_desc key l =
  filter (fun x => key x =? hi) l ++ filter (fun x => key x =? lo) l.
Proof.
  intros Hlt Hall.
  pose proof (sorted_split key lo _ (sorted_desc_sorted _ key l)) as Hs.
  assert (Hall' : Forall (fun x => key x = hi \/ key x = lo) (sorted_desc key l)).
  { eapply Permutation_Forall; [symmetry; apply sorted_desc_perm | exact Hall]. }
  rewrite Hs at 1.
  rewrite <- (sorted_desc_stable _ key hi l), <- (sorted_desc_stable _ key lo l).
  f_equal; apply filter_ext_in; intros x Hx;
    rewrite Forall_forall in Hall'; destruct (Hall' x Hx) as [E | E]; rewrite E.
  - rewrite Z.eqb_refl. now apply Z.ltb_lt.
  - rewrite Z.ltb_irrefl. symmetry. apply Z.eqb_neq. lia.
  - replace (lo <? hi) with true by (symmetry; now apply Z.ltb_lt).
    symmetry. apply Z.eqb_neq. lia.
  - now rewrite Z.ltb_irrefl, Z.eqb_refl.
Qed.

(** X5: without a profile (no genre, no author) and with a limit that is
    not negative, the output is the first book of each non-empty id: the
    unrated ones in pool order, then the rated ones in pool order, cut to
    [limit]. *)
Theorem empty_profile_ranking flat rated limit :
  0 <= limit ->
  rank_candidates flat [] [] rated limit =
  firstn (Z.to_nat limit)
    (filter (unrated rated) (first_by_id [] flat) ++
     filter (fun b => negb (unrated rated b)) (first_by_id [] flat)).
Proof.
  intros Hlim. unfold rank_candidates, dedup.
  rewrite slice_to_nonneg by assumption.
  rewrite (dedup_empty_from rated flat []) by (intros k s H; discriminate H).
  cbn [app Dict.keys map]. unfold Dict.values. rewrite map_map. cbn [snd].
  rewrite <- firstn_map.
  rewrite (sorted_two_levels score 3 2) by
    (try lia; apply Forall_forall; intros s Hs; apply in_map_iff in Hs;
     destruct Hs as (b & <- & _); cbn [score]; unfold score_of;
     rewrite score_book_empty; destruct (Str.mem _ rated); auto).
  rewrite map_app, !filter_map_swap, !map_map. cbn [book score].
  rewrite !map_id. f_equal. f_equal; apply filter_ext; intros b;
    unfold unrated, score_of; rewrite score_book_empty;
    now destruct (Str.mem _ rated).
Qed.

Lemma empty_profile_ranking_witness :
  rank_candidates [book_A1; book_B2; book_A1] [] [] ["A1"%string] 5 =
  [book_B2; book_A1].
Proof.
  apply (empty_profile_ranking [book_A1; book_B2; book_A1] ["A1"%string] 5).
  lia.
Defined.

(** ** The profile and the queries *)

Lemma most_common_NoDup n (c : Counter) :
  NoDup (Dict.keys c) -> NoDup (map fst (most_common n c)).
Proof.
  intros H. unfold most_common. rewrite <- firstn_map. apply NoDup_take.
  eapply Permutation_NoDup; [|exact H].
  apply Permutation_map. symmetry. apply sorted_desc_perm.
Qed.

(** X6: profile extraction is one store read that returns; each of the
    two lists has at most [top_n] entries (none for a [top_n] that is not
    positive), no entry twice, and only lower-cased entries. *)
Theorem profile_shape w user_id top_n :
  exists tg ta,
    get_user_top_genres_and_authors w user_id top_n =
      ([StoreFind user_id], Returned (tg, ta)) /\
    Z.of_nat (List.length tg) <= Z.max 0 top_n /\
    Z.of_nat (List.length ta) <= Z.max 0 top_n /\
    NoDup tg /\ NoDup ta /\
    Forall (fun k => Str.lower k = k) tg /\ Forall (fun k => Str.lower k = k) ta.
Proof.
  rewrite extract_profile_eq. do 2 eexists. split; [reflexivity|].
  rewrite !length_map.
  repeat split; try apply most_common_length; try apply most_common_lowered;
    apply most_common_NoDup, add_entries_NoDup; constructor.
Qed.

Lemma entries_no_metadata field rs :
  Forall (fun r => no_metadata (field r)) rs -> Spec.entries field rs = [].
Proof.
  unfold Spec.entries. induction 1 as [|r rs Hr _ IH]; simpl; [reflexivity|].
  rewrite IH. destruct Hr as [-> | ->]; reflexivity.
Qed.

(** X7: a user none of whose ratings carries genres or authors (a user
    without ratings in particular) has the empty profile, and the
    searches sent for that user are exactly the two fallback queries. *)
Theorem no_metadata_fallback w user_id limit :
  Forall (fun r => no_metadata (r_categories r) /\ no_metadata (r_authors r))
    (Spec.user_records w user_id) ->
  extracted_profile w user_id = ([], []) /\
  queries_issued (trace (recommend_for_user w user_id limit)) = Spec.fallback_queries.
Proof.
  intros H.
  assert (Hp : extracted_profile w user_id = ([], [])).
  { rewrite extracted_profile_value.
    rewrite !entries_no_metadata; [reflexivity | |];
      (eapply Forall_impl; [|exact H]); cbv beta; tauto. }
  split; [exact Hp|]. now rewrite recommend_queries, Hp.
Qed.

Lemma no_metadata_fallback_witness :
  extracted_profile bare_world "u" = ([], []) /\
  queries_issued (trace (recommend_for_user bare_world "u" 20)) = Spec.fallback_queries.
Proof.
  apply (no_metadata_fallback bare_world "u" 20).
  simpl. constructor; [|constructor].
  split; [right | left]; reflexivity.
Defined.

Lemma prefix_append (s t : string) : String.prefix s (s ++ t)%string = true.
Proof.
  induction s as [|c s IH]; simpl; [now destruct t|].
  destruct (ascii_dec c c); [assumption | contradiction].
Qed.

(** X8: a request for recommendations sends between one and six
    searches; each is a subject search or an author search and asks for 10
    or 15 results. *)
Theorem query_budget w user_id limit :
  (1 <= List.length (queries_issued (trace (recommend_for_user w user_id limit))) <= 6)%nat /\
  Forall
    (fun qn => (String.prefix "subject:" (fst qn) = true \/
                String.prefix "inauthor:" (fst qn) = true) /\
               (snd qn = 10 \/ snd qn = 15))
    (queries_issued (trace (recommend_for_user w user_id limit))).
Proof.
  rewrite recommend_queries, extracted_profile_value. cbn [fst snd].
  pose proof (most_common_length 3
    (add_entries (Spec.entries r_categories (Spec.user_records w user_id)) [])) as Hg.
  pose proof (most_common_length 3
    (add_entries (Spec.entries r_authors (Spec.user_records w user_id)) [])) as Ha.
  rewrite <- (length_map fst) in Hg, Ha.
  remember (map fst (most_common 3
    (add_entries (Spec.entries r_categories (Spec.user_records w user_id)) [])))
    as tg eqn:Etg.
  remember (map fst (most_common 3
    (add_entries (Spec.entries r_authors (Spec.user_records w user_id)) [])))
    as ta eqn:Eta.
  clear Etg Eta.
  assert (Hall : Forall
            (fun qn : string * Z =>
               (String.prefix "subject:" (fst qn) = true \/
                String.prefix "inauthor:" (fst qn) = true) /\
               (snd qn = 10 \/ snd qn = 15))
            (map (fun g => (("subject:" ++ g)%string, 10)) tg ++
             map (fun a => (("inauthor:" ++ a)%string, 10)) ta)).
  { apply Forall_app. split; apply Forall_forall; intros qn Hq;
      apply in_map_iff in Hq; destruct Hq as (x & <- & _); cbn [fst snd];
      rewrite prefix_append; auto. }
  assert (Hlen : (List.length
            (map (fun g => (("subject:" ++ g)%string, 10%Z)) tg ++
             map (fun a => (("inauthor:" ++ a)%string, 10%Z)) ta) <= 6)%nat).
  { rewrite length_app, !length_map. lia. }
  assert (Hpos : tg <> [] \/ ta <> [] ->
            (1 <= List.length
               (map (fun g => (("subject:" ++ g)%string, 10%Z)) tg ++
                map (fun a => (("inauthor:" ++ a)%string, 10%Z)) ta))%nat).
  { rewrite length_app, !length_map.
    destruct tg, ta; simpl; intros [H | H]; try contradiction; lia. }
  unfold Spec.planned_queries.
  destruct tg as [|g tg], ta as [|a ta]; cbv beta iota.
  - split; [simpl; lia|].
    repeat (constructor; [split; [left; reflexivity | right; reflexivity]|]).
    constructor.
  - split; [split; [apply Hpos; right; discriminate | exact Hlen] | exact Hall].
  - split; [split; [apply Hpos; left; discriminate | exact Hlen] | exact Hall].
  - split; [split; [apply Hpos; left; discriminate | exact Hlen] | exact Hall].
Qed.

Lemma gather_search_events w qs :
  trace (gather (map (fun qn => search_books_by_keywords w (fst qn) (snd qn)) qs)) =
  map (fun qn => HttpGet (fst qn) (snd qn)) qs.
Proof.
  induction qs as [|[q n] qs IH]; [reflexivity|].
  cbn [map gather fst snd]. rewrite search_books_by_keywords_eq.
  destruct (gather _) as [tr os]. unfold trace in *. simpl in *. now rewrite IH.
Qed.

Lemma store_reads_app tr1 tr2 :
  store_reads (tr1 ++ tr2) = store_reads tr1 ++ store_reads tr2.
Proof.
  induction tr1 as [|[u|q n] tr1 IH]; simpl; [reflexivity | now rewrite IH | assumption].
Qed.

Lemma store_reads_http (qs : list (string * Z)) :
  store_reads (map (fun qn => HttpGet (fst qn) (snd qn)) qs) = [].
Proof. induction qs as [|qn qs IH]; simpl; auto. Qed.

(** X9: a request for recommendations reads the rating store for the
    requesting user only: once before the searches and, unless a search
    raised, once more after them. *)
Theorem store_reads_of_request w user_id limit :
  store_reads (trace (recommend_for_user w user_id limit)) =
  match result (recommend_for_user w user_id limit) with
  | Returned _ => [user_id; user_id]
  | Raised _ => [user_id]
  end.
Proof.
  pose proof (recommend_for_user_eq w user_id limit) as E. cbv zeta in E.
  rewrite E. clear E. rewrite build_tasks_planned, gather_search_events.
  destruct (result (gather _)); unfold trace, result; cbn [fst snd store_reads];
    rewrite ?store_reads_app, store_reads_http; reflexivity.
Qed.

(** ** Searches without personalization *)

(** X10: [recommend_by_genre] and [recommend_by_author] send one search
    (subject or author) that asks for [limit] results and read no ratings;
    they never raise an HTTP error: such an error gives the empty list,
    and a decoded answer is returned item by item in the provider's order
    with the ids as given, so nothing is scored, dropped or
    de-duplicated. *)
Theorem recommend_by_passes_through w x limit :
  trace (recommend_by_genre w x limit) = [HttpGet ("subject:" ++ x) limit] /\
  trace (recommend_by_author w x limit) = [HttpGet ("inauthor:" ++ x) limit] /\
  result (recommend_by_genre w x limit) =
    match http w ("subject:" ++ x) limit with
    | RespHTTPError | RespJSON None => Returned []
    | RespNotJSON => Raised ValueError
    | RespJSON (Some items) => Returned (map normalize_book items)
    end /\
  result (recommend_by_author w x limit) =
    match http w ("inauthor:" ++ x) limit with
    | RespHTTPError | RespJSON None => Returned []
    | RespNotJSON => Raised ValueError
    | RespJSON (Some items) => Returned (map normalize_book items)
    end /\
  forall items,
    map book_id (map normalize_book items) = map v_id items /\
    map title (map normalize_book items) = map v_title items.
Proof.
  unfold recommend_by_genre, recommend_by_author, search_books_by_genre,
    search_books_by_author.
  rewrite !search_books_by_keywords_eq. unfold trace, result. cbn [fst snd].
  split; [reflexivity|]. split; [reflexivity|].
  split; [now destruct (http w ("subject:" ++ x)%string limit) as [| |[?|]]|].
  split; [now destruct (http w ("inauthor:" ++ x)%string limit) as [| |[?|]]|].
  intros items. now rewrite !map_map.
Qed.

(** ** The rating routes *)

Lemma same_rating_key u b d :
  same_rating u b d = true <-> rating_key d = (u, b).
Proof.
  unfold same_rating, rating_key. rewrite andb_true_iff, !String.eqb_eq.
  split; [intros [-> ->]; reflexivity | intros [= -> ->]; auto].
Qed.

Lemma existsb_same_In u b col :
  existsb (same_rating u b) col = true <-> In (u, b) (map rating_key col).
Proof.
  rewrite existsb_exists, in_map_iff. split.
  - intros (d & Hd & E). exists d. split; [now apply same_rating_key | assumption].
  - intros (d & E & Hd). exists d. split; [assumption | now apply same_rating_key].
Qed.

Lemma upsert_keys u b doc col :
  rating_key doc = (u, b) ->
  map rating_key (update_one_upsert u b doc col) =
  if existsb (same_rating u b) col then map rating_key col
  else map rating_key col ++ [(u, b)].
Proof.
  intros Hdoc. induction col as [|d col IH]; simpl; [now rewrite Hdoc|].
  destruct (same_rating u b d) eqn:E; simpl.
  - apply same_rating_key in E. now rewrite Hdoc, E.
  - rewrite IH. now destruct (existsb (same_rating u b) col).
Qed.

Lemma upsert_others u b doc col :
  same_rating u b doc = true ->
  filter (fun d => negb (same_rating u b d)) (update_one_upsert u b doc col) =
  filter (fun d => negb (same_rating u b d)) col.
Proof.
  intros Hdoc. induction col as [|d col IH]; simpl; [now rewrite Hdoc|].
  destruct (same_rating u b d) eqn:E; simpl.
  - now rewrite Hdoc.
  - now rewrite E, IH.
Qed.

Lemma delete_one_eq u b col :
  delete_one u b col =
  (fst (delete_one u b col), if existsb (same_rating u b) col then 1 else 0).
Proof.
  induction col as [|d col IH]; simpl; [reflexivity|].
  destruct (same_rating u b d); simpl; [reflexivity|].
  rewrite IH. simpl. now destruct (existsb (same_rating u b) col).
Qed.

Lemma delete_one_absent u b col :
  existsb (same_rating u b) col = false -> fst (delete_one u b col) = col.
Proof.
  induction col as [|d col IH]; simpl; [reflexivity|].
  destruct (same_rating u b d); simpl; [discriminate|].
  intros H. destruct (delete_one u b col). simpl in *. now rewrite IH.
Qed.

Lemma delete_one_others u b col :
  filter (fun d => negb (same_rating u b d)) (fst (delete_one u b col)) =
  filter (fun d => negb (same_rating u b d)) col.
Proof.
  induction col as [|d col IH]; simpl; [reflexivity|].
  destruct (same_rating u b d) eqn:E; simpl; [reflexivity|].
  destruct (delete_one u b col). simpl in *. now rewrite E, IH.
Qed.

Lemma delete_one_incl u b col d :
  In d (fst (delete_one u b col)) -> In d col.
Proof.
  induction col as [|d0 col IH]; simpl; [tauto|].
  destruct (same_rating u b d0); simpl; [now right|].
  destruct (delete_one u b col). simpl in *. intros [-> | H]; auto.
Qed.

Lemma filter_same_nil u b col :
  ~ In (u, b) (map rating_key col) -> filter (same_rating u b) col = [].
Proof.
  induction col as [|d col IH]; simpl; [reflexivity|].
  intros H. destruct (same_rating u b d) eqn:E.
  - apply same_rating_key in E. exfalso. apply H. now left.
  - apply IH. intros Hin. apply H. now right.
Qed.

Lemma delete_one_unique u b col :
  unique_ratings col -> unique_ratings (fst (delete_one u b col)).
Proof.
  unfold unique_ratings. fold rating_key.
  induction col as [|d col IH]; simpl; [auto|].
  intros H. inversion H as [|? ? Hnotin Hnd]; subst.
  destruct (same_rating u b d); simpl; [assumption|].
  pose proof (delete_one_incl u b col) as Hincl.
  destruct (delete_one u b col) as [rest n]. simpl in *.
  constructor; [|auto].
  intros Hin. apply Hnotin. apply in_map_iff in Hin.
  destruct Hin as (d' & E & Hd'). apply in_map_iff. exists d'. auto.
Qed.

Lemma delete_one_removes u b col :
  unique_ratings col ->
  filter (same_rating u b) (fst (delete_one u b col)) = [].
Proof.
  unfold unique_ratings. fold rating_key.
  induction col as [|d col IH]; simpl; [auto|].
  intros H. inversion H as [|? ? Hnotin Hnd]; subst.
  destruct (same_rating u b d) eqn:E; simpl.
  - apply same_rating_key in E. rewrite E in Hnotin.
    now apply filter_same_nil.
  - specialize (IH Hnd). destruct (delete_one u b col). simpl in *.
    now rewrite E.
Qed.

Lemma add_rating_unique col u r :
  unique_ratings col -> unique_ratings (fst (add_rating col u r)).
Proof.
  unfold add_rating. destruct (rating_in_range r); [|auto]. cbn [fst].
  unfold unique_ratings. fold rating_key. intros H.
  rewrite upsert_keys by reflexivity.
  destruct (existsb (same_rating u (in_book_id r)) col) eqn:E; [assumption|].
  apply NoDup_app; [assumption | repeat constructor; simpl; tauto |].
  intros x Hx [<- | []]. apply existsb_same_In in Hx. congruence.
Qed.

Lemma delete_rating_fst col u b :
  fst (delete_rating col u b) = fst (delete_one u b col).
Proof.
  unfold delete_rating. destruct (delete_one u b col) as [c n].
  now destruct (n =? 0).
Qed.

Lemma delete_rating_snd col u b :
  snd (delete_rating col u b) =
  if existsb (same_rating u b) col then OK_200 else NotFound_404.
Proof.
  unfold delete_rating. rewrite delete_one_eq.
  now destruct (existsb (same_rating u b) col).
Qed.

(** X12: both rating routes keep the collection free of two documents for
    the same user and book. *)
Theorem routes_keep_unique col u r b :
  unique_ratings col ->
  unique_ratings (fst (add_rating col u r)) /\
  unique_ratings (fst (delete_rating col u b)).
Proof.
  intros H. split; [now apply add_rating_unique|].
  rewrite delete_rating_fst. now apply delete_one_unique.
Qed.

Lemma routes_keep_unique_witness :
  unique_ratings (fst (add_rating [rating_doc "u" sample_rating] "u" sample_rating)) /\
  unique_ratings (fst (delete_rating [rating_doc "u" sample_rating] "u" "B9")).
Proof.
  apply (routes_keep_unique [rating_doc "u" sample_rating] "u" sample_rating "B9").
  repeat constructor. simpl. tauto.
Defined.

Lemma upsert_same u b doc col :
  same_rating u b doc = true ->
  ~ In (u, b) (map rating_key col) \/ NoDup (map rating_key col) ->
  filter (same_rating u b) (update_one_upsert u b doc col) = [doc].
Proof.
  intros Hdoc. induction col as [|d col IH]; simpl; intros H.
  - now rewrite Hdoc.
  - destruct (same_rating u b d) eqn:E; simpl.
    + rewrite Hdoc. f_equal. apply filter_same_nil.
      apply same_rating_key in E.
      destruct H as [H | H]; [exfalso; apply H; now left|].
      inversion H; subst. now rewrite <- E.
    + rewrite E. apply IH.
      destruct H as [H | H]; [left; tauto | right; now inversion H].
Qed.

(** X13: on a collection without duplicates, [POST /ratings] with a
    rating inside 0.5 .. 5.0 answers 201, leaves exactly one document for
    the user and book, the submitted one, and leaves every other document
    in place; a rating outside the range is refused with 422 and changes
    nothing. *)
Theorem add_rating_outcome col u r :
  unique_ratings col ->
  if rating_in_range r then
    snd (add_rating col u r) = Created_201 /\
    filter (same_rating u (in_book_id r)) (fst (add_rating col u r)) =
      [rating_doc u r] /\
    filter (fun d => negb (same_rating u (in_book_id r) d)) (fst (add_rating col u r)) =
      filter (fun d => negb (same_rating u (in_book_id r) d)) col
  else add_rating col u r = (col, Unprocessable_422).
Proof.
  intros H. unfold add_rating. destruct (rating_in_range r); [|reflexivity].
  cbn [fst snd].
  assert (Hdoc : same_rating u (in_book_id r) (rating_doc u r) = true).
  { now apply same_rating_key. }
  split; [reflexivity|]. split.
  - apply upsert_same; [exact Hdoc | right; exact H].
  - now apply upsert_others.
Qed.

Lemma add_rating_outcome_witness :
  snd (add_rating [rating_doc "u" sample_rating] "v" sample_rating) = Created_201 /\
  filter (same_rating "v" "B9")
    (fst (add_rating [rating_doc "u" sample_rating] "v" sample_rating)) =
    [rating_doc "v" sample_rating] /\
  filter (fun d => negb (same_rating "v" "B9" d))
    (fst (add_rating [rating_doc "u" sample_rating] "v" sample_rating)) =
    filter (fun d => negb (same_rating "v" "B9" d)) [rating_doc "u" sample_rating].
Proof.
  apply (add_rating_outcome [rating_doc "u" sample_rating] "v" sample_rating).
  repeat constructor. simpl. tauto.
Defined.

(** X14: on a collection without duplicates, [DELETE /ratings/{book_id}]
    answers 404 and changes nothing when the user has no rating of the
    book; otherwise it answers 200, no document for the user and book is
    left, one document fewer is stored and every other document stays in
    place. *)
Theorem delete_rating_outcome col u b :
  unique_ratings col ->
  if existsb (same_rating u b) col then
    snd (delete_rating col u b) = OK_200 /\
    filter (same_rating u b) (fst (delete_rating col u b)) = [] /\
    List.length col = S (List.length (fst (delete_rating col u b))) /\
    filter (fun d => negb (same_rating u b d)) (fst (delete_rating col u b)) =
      filter (fun d => negb (same_rating u b d)) col
  else delete_rating col u b = (col, NotFound_404).
Proof.
  intros H. destruct (existsb (same_rating u b) col) eqn:E.
  - rewrite delete_rating_snd, E, delete_rating_fst.
    split; [reflexivity|]. split; [now apply delete_one_removes|].
    split; [|apply delete_one_others].
    clear H. induction col as [|d col IH]; simpl in *; [discriminate|].
    destruct (same_rating u b d); simpl; [reflexivity|].
    specialize (IH E). destruct (delete_one u b col). simpl in *. now rewrite IH.
  - rewrite (surjective_pairing (delete_rating col u b)).
    rewrite delete_rating_snd, E, delete_rating_fst.
    now rewrite delete_one_absent.
Qed.

Lemma delete_rating_outcome_witness :
  snd (delete_rating [rating_doc "u" sample_rating] "u" "B9") = OK_200 /\
  filter (same_rating "u" "B9")
    (fst (delete_rating [rating_doc "u" sample_rating] "u" "B9")) = [] /\
  List.length [rating_doc "u" sample_rating] =
    S (List.length (fst (delete_rating [rating_doc "u" sample_rating] "u" "B9"))) /\
  filter (fun d => negb (same_rating "u" "B9" d))
    (fst (delete_rating [rating_doc "u" sample_rating] "u" "B9")) =
    filter (fun d => negb (same_rating "u" "B9" d)) [rating_doc "u" sample_rating].
Proof.
  apply (delete_rating_outcome [rating_doc "u" sample_rating] "u" "B9").
  repeat constructor. simpl. tauto.
Defined.

Lemma upsert_absent u b doc col :
  existsb (same_rating u b) col = false ->
  update_one_upsert u b doc col = col ++ [doc].
Proof.
  induction col as [|d col IH]; simpl; [reflexivity|].
  destruct (same_rating u b d); simpl; [discriminate|].
  intros H. now rewrite IH.
Qed.

Lemma delete_one_last u b doc col :
  existsb (same_rating u b) col = false -> same_rating u b doc = true ->
  delete_one u b (col ++ [doc]) = (col, 1).
Proof.
  intros H Hdoc. induction col as [|d col IH]; simpl in *; [now rewrite Hdoc|].
  destruct (same_rating u b d); simpl in *; [discriminate|].
  now rewrite IH.
Qed.

(** X15: rating a book the user had not rated and then deleting that
    rating gives back the collection as it was, with answer 200. *)
Theorem add_then_delete col u r :
  existsb (same_rating u (in_book_id r)) col = false ->
  rating_in_range r = true ->
  delete_rating (fst (add_rating col u r)) u (in_book_id r) = (col, OK_200).
Proof.
  intros Habs Hr. unfold add_rating. rewrite Hr. cbn [fst].
  rewrite upsert_absent by assumption.
  unfold delete_rating. rewrite delete_one_last; [reflexivity | assumption|].
  now apply same_rating_key.
Qed.

Lemma add_then_delete_witness :
  delete_rating (fst (add_rating [rating_doc "u" sample_rating] "v" sample_rating))
    "v" "B9" = ([rating_doc "u" sample_rating], OK_200).
Proof.
  apply (add_then_delete [rating_doc "u" sample_rating] "v" sample_rating);
    reflexivity.
Defined.

(** ** Ratings and recommendations *)

Lemma user_records_others w col col' u b u' :
  u' <> u ->
  filter (fun d => negb (same_rating u b d)) col' =
  filter (fun d => negb (same_rating u b d)) col ->
  Spec.user_records (with_ratings w col') u' = Spec.user_records (with_ratings w col) u'.
Proof.
  intros Hne H. unfold Spec.user_records. cbn [ratings with_ratings].
  assert (E : forall l,
             filter (fun r => String.eqb (r_user_id r) u') l =
             filter (fun r => String.eqb (r_user_id r) u')
                    (filter (fun d => negb (same_rating u b d)) l)).
  { intros l. rewrite filter_filter. apply filter_ext. intros d.
    unfold same_rating. destruct (String.eqb (r_user_id d) u') eqn:E1;
      [|now rewrite andb_false_r].
    apply String.eqb_eq in E1. rewrite E1.
    apply String.eqb_neq in Hne. now rewrite Hne. }
  now rewrite (E col'), (E col), H.
Qed.

Lemma recommend_same_records w col col' user_id limit :
  Spec.user_records (with_ratings w col') user_id =
  Spec.user_records (with_ratings w col) user_id ->
  recommend_for_user (with_ratings w col') user_id limit =
  recommend_for_user (with_ratings w col) user_id limit.
Proof.
  intros H. unfold recommend_for_user, get_user_top_genres_and_authors, find_ratings.
  fold (Spec.user_records (with_ratings w col') user_id).
  fold (Spec.user_records (with_ratings w col) user_id).
  now rewrite H.
Qed.

(** X16: a rating added or deleted by one user changes nothing in what
    [recommend_for_user] does and returns for any other user. *)
Theorem other_users_unaffected w col u r b u' limit :
  u' <> u ->
  recommend_for_user (with_ratings w (fst (add_rating col u r))) u' limit =
    recommend_for_user (with_ratings w col) u' limit /\
  recommend_for_user (with_ratings w (fst (delete_rating col u b))) u' limit =
    recommend_for_user (with_ratings w col) u' limit.
Proof.
  intros Hne. split; apply recommend_same_records.
  - unfold add_rating. destruct (rating_in_range r); [|reflexivity]. cbn [fst].
    apply (user_records_others w col _ u (in_book_id r)); [assumption|].
    apply upsert_others. now apply same_rating_key.
  - rewrite delete_rating_fst.
    apply (user_records_others w col _ u b); [assumption|].
    apply delete_one_others.
Qed.

Lemma other_users_unaffected_witness :
  recommend_for_user
    (with_ratings scenario_world
       (fst (add_rating (ratings scenario_world) "v" sample_rating))) "u" 20 =
    recommend_for_user (with_ratings scenario_world (ratings scenario_world)) "u" 20 /\
  recommend_for_user
    (with_ratings scenario_world
       (fst (delete_rating (ratings scenario_world) "v" "A1"))) "u" 20 =
    recommend_for_user (with_ratings scenario_world (ratings scenario_world)) "u" 20.
Proof.
  apply (other_users_unaffected scenario_world (ratings scenario_world)
           "v" sample_rating "A1" "u" 20).
  discriminate.
Defined.

Lemma add_rating_in_range col u r :
  Forall rating_stored_in_range col ->
  Forall rating_stored_in_range (fst (add_rating col u r)).
Proof.
  intros H. unfold add_rating. destruct (rating_in_range r) eqn:Er; [|exact H].
  cbn [fst].
  assert (Hdoc : rating_stored_in_range (rating_doc u r)).
  { exists (in_rating r). split; [reflexivity|].
    unfold rating_in_range in Er. apply andb_true_iff in Er.
    destruct Er as [E1 E2]. apply Z.leb_le in E1, E2. lia. }
  induction H as [|d col Hd Hcol IH]; simpl.
  - constructor; [exact Hdoc | constructor].
  - destruct (same_rating u (in_book_id r) d); constructor; auto.
Qed.

Lemma reachable_invariant col :
  reachable col -> unique_ratings col /\ Forall rating_stored_in_range col.
Proof.
  induction 1 as [| col u r _ [IH1 IH2] | col u b _ [IH1 IH2]].
  - split; constructor.
  - split; [now apply add_rating_unique | now apply add_rating_in_range].
  - rewrite delete_rating_fst. split; [now apply delete_one_unique|].
    apply Forall_forall. intros d Hd. apply delete_one_incl in Hd.
    rewrite Forall_forall in IH2. auto.
Qed.

Lemma accumulated_positive es k :
  Forall (fun e => 1 <= snd e) es -> In k (map fst es) ->
  1 <= Spec.accumulated es k.
Proof.
  unfold Spec.accumulated. induction 1 as [|e es He Hall IH]; simpl; [tauto|].
  intros [<- | Hin].
  - rewrite String.eqb_refl. simpl.
    assert (0 <= Spec.sum (map snd (filter (fun e0 => String.eqb (fst e0) (fst e)) es))).
    { clear IH. induction Hall as [|e' es' He' _ IH']; simpl; [lia|].
      destruct (String.eqb (fst e') (fst e)); simpl; lia. }
    lia.
  - specialize (IH Hin). destruct (String.eqb (fst e) k); simpl; [|assumption].
    lia.
Qed.

Lemma entries_positive field rs :
  Forall rating_stored_in_range rs ->
  Forall (fun e => 1 <= snd e) (Spec.entries field rs).
Proof.
  intros H. apply Forall_forall. intros [k v] Hin.
  apply in_flat_map in Hin. destruct Hin as (r & Hr & Hin).
  destruct (field r); [|contradiction].
  apply in_map_iff in Hin. destruct Hin as (g & [= <- <-] & _).
  rewrite Forall_forall in H. destruct (H r Hr) as (x & Hx & Hrange).
  simpl. unfold rating_or_0. rewrite Hx. lia.
Qed.

(** X17: every collection the two rating routes can build from an empty
    one has no two documents for one user and book and stores a rating
    between 0.5 and 5.0 in every document; hence every key of a profile
    aggregation over such a collection has a weight of at least 0.5. *)
Theorem reachable_collections col w user_id dim :
  reachable col ->
  unique_ratings col /\
  Forall rating_stored_in_range col /\
  Forall (fun kv => 1 <= snd kv)
    (pick dim (final_counts (with_ratings w col) user_id)).
Proof.
  intros H. destruct (reachable_invariant col H) as [Hu Hr].
  split; [assumption|]. split; [assumption|].
  rewrite final_counts_eq, add_entries_items.
  apply Forall_forall. intros kv Hkv. apply in_map_iff in Hkv.
  destruct Hkv as (k & <- & Hk). cbn [snd].
  apply first_seen_incl in Hk.
  apply accumulated_positive; [|assumption].
  apply entries_positive. unfold Spec.user_records. cbn [ratings with_ratings].
  apply Forall_forall. intros d Hd. apply filter_In in Hd.
  rewrite Forall_forall in Hr. apply Hr, Hd.
Qed.

Lemma reachable_collections_witness :
  unique_ratings (fst (add_rating [] "u" sample_rating)) /\
  Forall rating_stored_in_range (fst (add_rating [] "u" sample_rating)) /\
  Forall (fun kv => 1 <= snd kv)
    (pick Genres
       (final_counts (with_ratings empty_world (fst (add_rating [] "u" sample_rating))) "u")).
Proof.
  apply (reachable_collections (fst (add_rating [] "u" sample_rating))
           empty_world "u" Genres).
  apply reach_add, reach_empty.
Defined.

Lemma rated_ids_mem w col u bid :
  Str.mem bid (rated_ids_of (with_ratings w col) u) =
  existsb (same_rating u bid) col.
Proof.
  unfold rated_ids_of, Spec.user_records, Str.mem. cbn [ratings with_ratings].
  induction col as [|d col IH]; simpl; [reflexivity|].
  unfold same_rating at 1.
  destruct (String.eqb (r_user_id d) u); simpl; [|assumption].
  now rewrite IH, (String.eqb_sym bid (r_book_id d)).
Qed.

Lemma existsb_filter_nil {A} (p : A -> bool) l :
  existsb p l = match filter p l with [] => false | _ => true end.
Proof.
  induction l as [|x l IH]; simpl; [reflexivity|]. now destruct (p x).
Qed.

Lemma existsb_other_key u b b' (col col' : list RatingDoc) :
  b' <> b ->
  filter (fun d => negb (same_rating u b d)) col' =
  filter (fun d => negb (same_rating u b d)) col ->
  existsb (same_rating u b') col' = existsb (same_rating u b') col.
Proof.
  intros Hne H. rewrite !existsb_filter_nil.
  assert (E : forall l,
             filter (same_rating u b') l =
             filter (same_rating u b') (filter (fun d => negb (same_rating u b d)) l)).
  { intros l. rewrite filter_filter. apply filter_ext. intros d.
    unfold same_rating.
    destruct (String.eqb (r_user_id d) u); simpl; [|reflexivity].
    destruct (String.eqb (r_book_id d) b') eqn:E1; [|now rewrite andb_false_r].
    apply String.eqb_eq in E1. rewrite E1.
    apply String.eqb_neq in Hne. now rewrite Hne. }
  now rewrite (E col'), (E col), H.
Qed.

(** X18: once a user has rated a book (rating inside the range), the
    scoring of [recommend_for_user] finds its id among the rated ones and
    gives it no novelty bonus, for that user and whatever the profile;
    whether any other id counts as rated does not change. *)
Theorem rated_book_loses_novelty w col u r tg ta b :
  rating_in_range r = true ->
  Str.mem (in_book_id r)
    (rated_ids_of (with_ratings w (fst (add_rating col u r))) u) = true /\
  score_book tg ta (rated_ids_of (with_ratings w (fst (add_rating col u r))) u)
    b (in_book_id r) =
    2 + 4 * Spec.count_if (fun g => matches_any g (categories b)) tg
      + 5 * Spec.count_if (fun a => matches_any a (authors b)) ta /\
  forall bid,
    bid = in_book_id r \/
    Str.mem bid (rated_ids_of (with_ratings w (fst (add_rating col u r))) u) =
      Str.mem bid (rated_ids_of (with_ratings w col) u).
Proof.
  intros Hr.
  assert (Hmem : Str.mem (in_book_id r)
            (rated_ids_of (with_ratings w (fst (add_rating col u r))) u) = true).
  { rewrite rated_ids_mem. unfold add_rating. rewrite Hr. cbn [fst].
    apply existsb_same_In. rewrite upsert_keys by reflexivity.
    destruct (existsb (same_rating u (in_book_id r)) col) eqn:E.
    - now apply existsb_same_In.
    - apply in_or_app. right. now left. }
  split; [exact Hmem|]. split.
  - unfold score_book, BASE, GENRE_BOOST, AUTHOR_BOOST, NOVELTY.
    now rewrite !fold_boost, Hmem.
  - intros bid. destruct (string_dec bid (in_book_id r)) as [E | E]; [now left|].
    right. rewrite !rated_ids_mem.
    apply (existsb_other_key u (in_book_id r)); [assumption|].
    unfold add_rating. rewrite Hr. cbn [fst].
    apply upsert_others. now apply same_rating_key.
Qed.

Lemma rated_book_loses_novelty_witness :
  Str.mem "B9"
    (rated_ids_of (with_ratings empty_world (fst (add_rating [] "u" sample_rating))) "u")
    = true.
Proof.
  apply (proj1 (rated_book_loses_novelty empty_world [] "u" sample_rating
                  [] [] book_A1 eq_refl)).
Defined.

(** ** Ratings merged into the shown books *)

Lemma merge_shown token fetch books :
  map shown (merge_user_ratings_with_books token fetch books) = map shown books.
Proof.
  unfold merge_user_ratings_with_books.
  destruct token, books as [|b books], fetch as [|rs]; try reflexivity.
  rewrite map_map. reflexivity.
Qed.

Lemma ratings_lookup_app rs e book_id :
  ratings_lookup (rs ++ [e]) book_id =
  if id_eqb (fst e) book_id then Some (snd e) else ratings_lookup rs book_id.
Proof. unfold ratings_lookup. now rewrite fold_left_app. Qed.

(** X19: the merge returns the same books in the same order and touches
    nothing but [user_rating].  Without a session token, for an empty
    list, or when fetching the ratings fails, the list comes back as it
    is; otherwise every book gets a [user_rating]: the rating of the last
    fetched entry with its id, and [None] when there is no such entry. *)
Theorem merge_outcome token fetch books :
  map shown (merge_user_ratings_with_books token fetch books) = map shown books /\
  merge_user_ratings_with_books false fetch books = books /\
  merge_user_ratings_with_books token FetchFailed books = books /\
  merge_user_ratings_with_books token fetch [] = [] /\
  forall rs,
    map user_rating (merge_user_ratings_with_books true (Fetched rs) books) =
    map (fun b => Some (match ratings_lookup rs (book_id (shown b)) with
                        | Some v => v
                        | None => None
                        end)) books /\
    forall e book_id,
      ratings_lookup (rs ++ [e]) book_id =
      if id_eqb (fst e) book_id then Some (snd e) else ratings_lookup rs book_id.
Proof.
  split; [apply merge_shown|]. split; [reflexivity|].
  split; [now destruct token, books|]. split; [now destruct token|].
  intros rs. split; [|intros; apply ratings_lookup_app].
  destruct books as [|b books]; [reflexivity|].
  unfold merge_user_ratings_with_books. now rewrite map_map.
Qed.

Lemma merge_nonempty fetch books :
  books <> [] -> merge_user_ratings_with_books true fetch books <> [].
Proof.
  destruct books as [|b books]; [contradiction|]. intros _.
  destruct fetch; discriminate.
Qed.

(** X20: the featured list is shared between requests.  When a logged-in
    user's home page falls back to it and the ratings are fetched, that
    user's ratings are written into the shared list; a later visitor
    without a session who also falls back to it is given the very same
    items, [user_rating] values of the earlier user included. *)
Theorem featured_ratings_persist featured rs fetch2 :
  featured <> [] ->
  index_rec_items
    (snd (index_rec_items featured true None (Fetched rs))) false None fetch2 =
    index_rec_items featured true None (Fetched rs) /\
  map user_rating (fst (index_rec_items featured true None (Fetched rs))) =
    map (fun b => Some (match ratings_lookup rs (book_id (shown b)) with
                        | Some v => v
                        | None => None
                        end)) featured.
Proof.
  intros Hne. destruct featured as [|b featured]; [contradiction|].
  unfold index_rec_items. cbn [fst snd].
  split; [reflexivity|].
  unfold merge_user_ratings_with_books. now rewrite map_map.
Qed.

Lemma featured_ratings_persist_witness :
  index_rec_items
    (snd (index_rec_items featured_sample true None
            (Fetched [(Some "sample-2"%string, Some 9)]))) false None FetchFailed =
    index_rec_items featured_sample true None
      (Fetched [(Some "sample-2"%string, Some 9)]) /\
  map user_rating
    (fst (index_rec_items featured_sample true None
            (Fetched [(Some "sample-2"%string, Some 9)]))) =
    [Some None; Some (Some 9)].
Proof.
  apply (featured_ratings_persist featured_sample
           [(Some "sample-2"%string, Some 9)] FetchFailed).
  discriminate.
Defined.

(** ** Profile extraction over the ratings as stored *)

Section WeightedFacts.
Variable W : Type.
Variable zero : W.
Variable add : W -> W -> W.
Variable lt : W -> W -> bool.
Variable lower : string -> string.

Local Abbreviation counter_add := (Weighted.counter_add zero add).
Local Abbreviation add_entries := (Weighted.add_entries zero add).
Local Abbreviation accumulated := (Weighted.accumulated zero add).
Local Abbreviation entries := (Weighted.entries zero lower).
Local Abbreviation sorted_desc := (Weighted.sorted_desc lt).
Local Abbreviation insert_desc := (Weighted.insert_desc lt).

Lemma w_counter_add_keys k w (c : Dict.t W) :
  Dict.keys (counter_add k w c) =
  if Str.mem k (Dict.keys c) then Dict.keys c else Dict.keys c ++ [k].
Proof. unfold Weighted.counter_add. destruct (Dict.get k c); apply keys_set. Qed.

Lemma w_add_entries_NoDup es (c : Dict.t W) :
  NoDup (Dict.keys c) -> NoDup (Dict.keys (add_entries es c)).
Proof.
  revert c. induction es as [|e es IH]; intros c H; simpl; [assumption|].
  apply IH. unfold Weighted.counter_add.
  destruct (Dict.get (fst e) c); now apply NoDup_keys_set.
Qed.

Lemma w_add_entries_keys es (c : Dict.t W) :
  Dict.keys (add_entries es c) =
  Dict.keys c ++
  filter (fun k => negb (Str.mem k (Dict.keys c))) (Spec.first_seen (map fst es)).
Proof.
  revert c. induction es as [|[k0 w0] es IH]; intros c.
  - simpl. now rewrite app_nil_r.
  - cbn [Weighted.add_entries fold_left map fst snd Spec.first_seen].
    fold (add_entries es (counter_add k0 w0 c)).
    rewrite IH, w_counter_add_keys.
    destruct (Str.mem k0 (Dict.keys c)) eqn:E.
    + cbn [filter]. rewrite E. cbn [negb]. rewrite filter_filter.
      f_equal. apply filter_ext. intros k.
      destruct (String.eqb k0 k) eqn:Ek; [|reflexivity].
      apply String.eqb_eq in Ek. subst k. now rewrite E.
    + cbn [filter]. rewrite E. cbn [negb]. rewrite <- app_assoc, !filter_filter.
      cbn [app]. do 2 f_equal. apply filter_ext. intros k.
      unfold Str.mem. rewrite existsb_app. cbn [existsb].
      rewrite orb_false_r, negb_orb, (String.eqb_sym k k0).
      apply andb_comm.
Qed.

(** The value a key has after a stream was added. *)
Lemma w_add_entries_get es (c : Dict.t W) k :
  Dict.get k (add_entries es c) =
  match filter (fun e => String.eqb (fst e) k) es with
  | [] => Dict.get k c
  | ws => Some (fold_left add (map snd ws)
                  (match Dict.get k c with Some v => v | None => zero end))
  end.
Proof.
  revert c. induction es as [|[k0 w0] es IH]; intros c; [reflexivity|].
  cbn [Weighted.add_entries fold_left filter fst snd].
  fold (add_entries es (counter_add k0 w0 c)). rewrite IH.
  destruct (String.eqb k0 k) eqn:E.
  - apply String.eqb_eq in E. subst k0.
    assert (Hget : Dict.get k (counter_add k w0 c) =
                   Some (add (match Dict.get k c with Some v => v | None => zero end) w0)).
    { unfold Weighted.counter_add. destruct (Dict.get k c); apply get_set_same. }
    rewrite Hget. now destruct (filter _ es).
  - apply String.eqb_neq in E.
    assert (Hget : Dict.get k (counter_add k0 w0 c) = Dict.get k c).
    { unfold Weighted.counter_add. destruct (Dict.get k0 c); now apply get_set_other. }
    now rewrite Hget.
Qed.

Lemma dict_by_keys (d : Dict.t W) (v : string -> W) :
  NoDup (Dict.keys d) ->
  (forall k, In k (Dict.keys d) -> Dict.get k d = Some (v k)) ->
  d = map (fun k => (k, v k)) (Dict.keys d).
Proof.
  induction d as [|[k0 v0] d IH]; simpl; intros Hnd Hget; [reflexivity|].
  inversion Hnd as [|? ? Hnotin Hnd']; subst.
  pose proof (Hget k0 (or_introl eq_refl)) as H0.
  rewrite String.eqb_refl in H0. injection H0 as ->. f_equal.
  apply IH; [assumption|]. intros k Hk.
  specialize (Hget k (or_intror Hk)).
  destruct (String.eqb k0 k) eqn:E; [|assumption].
  apply String.eqb_eq in E. subst. contradiction.
Qed.

Lemma filter_key_nonempty (es : list (string * W)) k :
  In k (map fst es) -> filter (fun e => String.eqb (fst e) k) es <> [].
Proof.
  intros H. apply in_map_iff in H. destruct H as (e & <- & He).
  intros E. assert (Hin : In e (filter (fun e0 => String.eqb (fst e0) (fst e)) es)).
  { apply filter_In. split; [assumption | apply String.eqb_refl]. }
  rewrite E in Hin. contradiction.
Qed.

(** The counter built from a stream: the keys in first-seen order, each
    with its running sum. *)
Lemma w_add_entries_items es :
  add_entries es [] = Weighted.items zero add es.
Proof.
  unfold Weighted.items.
  pose proof (w_add_entries_keys es []) as Hk. simpl in Hk.
  assert (Hall : forall l : list string,
             filter (fun k => negb (Str.mem k (@nil string))) l = l).
  { induction l as [|x l IHl]; [reflexivity|]. simpl. f_equal. exact IHl. }
  rewrite Hall in Hk. rewrite <- Hk.
  apply dict_by_keys.
  - apply w_add_entries_NoDup. constructor.
  - intros k Hin. rewrite Hk in Hin. apply first_seen_incl in Hin.
    rewrite w_add_entries_get. unfold Weighted.accumulated.
    pose proof (filter_key_nonempty es k Hin) as Hne.
    now destruct (filter _ es).
Qed.

Lemma w_add_entries_app es1 es2 (c : Dict.t W) :
  add_entries (es1 ++ es2) c = add_entries es2 (add_entries es1 c).
Proof. apply fold_left_app. Qed.

Lemma w_add_all field w (c : Dict.t W) :
  Weighted.add_all zero add lower field w c =
  add_entries (map (fun g => (lower g, w)) field) c.
Proof.
  unfold Weighted.add_all, Weighted.add_entries. revert c.
  induction field as [|g field IH]; intros c; simpl; [reflexivity | apply IH].
Qed.

Lemma w_count_field (field : Weighted.Doc W -> option (list string)) r c :
  (Weighted.d_rating r = Weighted.NoneValue W -> no_metadata (field r)) ->
  Weighted.count_field zero add lower (field r) (Weighted.d_rating r) c =
  inr (add_entries (entries field [r]) c).
Proof.
  intros H. unfold Weighted.entries, Weighted.weight_of. cbn [flat_map].
  rewrite app_nil_r. unfold Weighted.count_field.
  destruct (field r) as [[|g gs]|] eqn:Ef; try reflexivity.
  destruct (Weighted.d_rating r) as [| |x] eqn:Er.
  - now rewrite w_add_all.
  - destruct (H eq_refl) as [E | E]; discriminate E.
  - now rewrite w_add_all.
Qed.

Lemma w_entries_cons field r rs :
  entries field (r :: rs) = entries field [r] ++ entries field rs.
Proof. unfold Weighted.entries. cbn [flat_map]. now rewrite app_nil_r. Qed.

Lemma w_count_records rs c1 c2 :
  Forall (@Weighted.none_rating_unused W) rs ->
  Weighted.count_records zero add lower rs (c1, c2) =
  inr (add_entries (entries (@Weighted.d_categories W) rs) c1,
       add_entries (entries (@Weighted.d_authors W) rs) c2).
Proof.
  intros H. revert c1 c2. induction H as [|r rs Hr _ IH]; intros c1 c2;
    [reflexivity|].
  cbn [Weighted.count_records]. unfold Weighted.count_record. cbn [fst snd].
  rewrite (w_count_field (@Weighted.d_categories W)) by (intros E; apply Hr, E).
  rewrite (w_count_field (@Weighted.d_authors W)) by (intros E; apply Hr, E).
  rewrite IH, (w_entries_cons _ r rs), (w_entries_cons (@Weighted.d_authors W) r rs).
  now rewrite !w_add_entries_app.
Qed.

(** *** The sort *)

Section Sort.
Variable A : Type.
Variable key : A -> W.
Variable U : list A.
Hypothesis Hord : Weighted.ordered lt (map key U) = true.

Lemma ordered_asym a b :
  In a U -> In b U -> lt (key a) (key b) = true -> lt (key b) (key a) = false.
Proof.
  intros Ha Hb Hlt. unfold Weighted.ordered in Hord.
  rewrite forallb_forall in Hord.
  specialize (Hord (key a) (in_map key _ _ Ha)).
  rewrite forallb_forall in Hord.
  specialize (Hord (key b) (in_map key _ _ Hb)).
  apply andb_true_iff in Hord. destruct Hord as [H _].
  rewrite Hlt in H. simpl in H. now apply negb_true_iff in H.
Qed.

Lemma ordered_negtrans a b c :
  In a U -> In b U -> In c U ->
  lt (key a) (key b) = false -> lt (key b) (key c) = false ->
  lt (key a) (key c) = false.
Proof.
  intros Ha Hb Hc Hab Hbc. unfold Weighted.ordered in Hord.
  rewrite forallb_forall in Hord.
  specialize (Hord (key a) (in_map key _ _ Ha)).
  rewrite forallb_forall in Hord.
  specialize (Hord (key b) (in_map key _ _ Hb)).
  apply andb_true_iff in Hord. destruct Hord as [_ H].
  rewrite forallb_forall in H.
  specialize (H (key c) (in_map key _ _ Hc)).
  rewrite Hab, Hbc in H. simpl in H. now apply negb_true_iff in H.
Qed.

Lemma w_insert_perm x s : Permutation (insert_desc key x s) (x :: s).
Proof.
  induction s as [|y s IH]; simpl; [reflexivity|].
  destruct (lt (key x) (key y)); [|reflexivity].
  rewrite IH. apply perm_swap.
Qed.

Lemma w_sorted_perm l : Permutation (sorted_desc key l) l.
Proof.
  induction l as [|x l IH]; simpl; [reflexivity|].
  rewrite w_insert_perm. now constructor.
Qed.

Lemma w_insert_sorted x s :
  incl (x :: s) U ->
  StronglySorted (fun a b => lt (key a) (key b) = false) s ->
  StronglySorted (fun a b => lt (key a) (key b) = false) (insert_desc key x s).
Proof.
  induction s as [|y s IH]; simpl; intros Hincl Hs.
  - repeat constructor.
  - inversion Hs as [|? ? Hs' Hall]; subst.
    assert (Hx : In x U) by (apply Hincl; now left).
    assert (Hy : In y U) by (apply Hincl; right; now left).
    destruct (lt (key x) (key y)) eqn:E.
    + constructor.
      * apply IH; [|assumption]. intros z [<- | Hz]; apply Hincl;
          [now left | right; now right].
      * eapply Permutation_Forall; [symmetry; apply w_insert_perm|].
        constructor; [|assumption]. now apply ordered_asym.
    + constructor; [assumption|].
      constructor; [exact E|].
      apply Forall_forall. intros z Hz.
      rewrite Forall_forall in Hall.
      apply (ordered_negtrans x y z);
        [assumption | assumption | apply Hincl; right; now right
        | exact E | now apply Hall].
Qed.

Lemma w_sorted_sorted l :
  incl l U ->
  StronglySorted (fun a b => lt (key a) (key b) = false) (sorted_desc key l).
Proof.
  induction l as [|x l IH]; simpl; intros Hincl; [constructor|].
  apply w_insert_sorted.
  - intros z [<- | Hz]; [apply Hincl; now left|].
    apply Hincl. right. now apply (Permutation_in _ (w_sorted_perm l)).
  - apply IH. intros z Hz. apply Hincl. now right.
Qed.

Lemma w_insert_stable v x s :
  In v U -> incl (x :: s) U ->
  filter (fun y => Weighted.tie lt (key y) (key v)) (insert_desc key x s) =
  filter (fun y => Weighted.tie lt (key y) (key v)) (x :: s).
Proof.
  intros Hv. induction s as [|y s IH]; intros Hincl; [reflexivity|].
  cbn [Weighted.insert_desc].
  assert (Hx : In x U) by (apply Hincl; now left).
  assert (Hy : In y U) by (apply Hincl; right; now left).
  destruct (lt (key x) (key y)) eqn:E; [|reflexivity].
  cbn [filter] in *. rewrite IH
    by (intros z [<- | Hz]; apply Hincl; [now left | right; now right]).
  destruct (Weighted.tie lt (key y) (key v)) eqn:Ty,
           (Weighted.tie lt (key x) (key v)) eqn:Tx; try reflexivity.
  exfalso. unfold Weighted.tie in Ty, Tx.
  apply andb_true_iff in Ty, Tx. destruct Ty as [_ Ty], Tx as [Tx _].
  apply negb_true_iff in Ty, Tx.
  pose proof (ordered_negtrans x v y Hx Hv Hy Tx Ty). congruence.
Qed.

Lemma w_sorted_stable v l :
  In v U -> incl l U ->
  filter (fun y => Weighted.tie lt (key y) (key v)) (sorted_desc key l) =
  filter (fun y => Weighted.tie lt (key y) (key v)) l.
Proof.
  intros Hv. induction l as [|x l IH]; intros Hincl; [reflexivity|].
  cbn [Weighted.sorted_desc]. rewrite w_insert_stable; [|assumption|].
  - cbn [filter]. rewrite IH; [reflexivity|].
    intros z Hz. apply Hincl. now right.
  - intros z [<- | Hz]; [apply Hincl; now left|].
    apply Hincl. right. now apply (Permutation_in _ (w_sorted_perm l)).
Qed.

End Sort.

Lemma w_ranking_sorted es :
  Weighted.ordered lt (map snd (Weighted.items zero add es)) = true ->
  Weighted.ranking zero add lt es (sorted_desc snd (Weighted.items zero add es)).
Proof.
  intros Hord. split; [apply w_sorted_perm|]. split.
  - apply (w_sorted_sorted _ snd (Weighted.items zero add es) Hord).
    apply incl_refl.
  - apply Forall_forall. intros it Hit.
    apply (w_sorted_stable _ snd (Weighted.items zero add es) Hord);
      [assumption | apply incl_refl].
Qed.

End WeightedFacts.

(** C2: for every user and every [top_n] (the positive ones included),
    when the store answers, no rating next to genres or authors is [None]
    and [<] orders the accumulated weights as it orders numbers (floats
    that are not NaN, integers), profile extraction returns the first
    [top_n] genres and the first [top_n] authors by descending accumulated
    weight.  The weight of a lower-cased string is the running sum, in
    the order the store yields the records, of the ratings of the entries
    that lower-case to it (0 for a record without rating); strings of tied
    weight come in first-encountered order; records without genres or
    authors add nothing to that dimension and raise nothing. *)
Theorem stored_profile_ranked (W : Type) (zero : W) (add : W -> W -> W)
    (lt : W -> W -> bool) (lower : string -> string)
    (col : list (Weighted.Doc W)) (user_id : string) (top_n : Z) :
  Forall (@Weighted.none_rating_unused W) (Weighted.user_docs col user_id) ->
  Weighted.ordered lt
    (map snd (Weighted.items zero add
       (Weighted.entries zero lower (@Weighted.d_categories W)
          (Weighted.user_docs col user_id)))) = true ->
  Weighted.ordered lt
    (map snd (Weighted.items zero add
       (Weighted.entries zero lower (@Weighted.d_authors W)
          (Weighted.user_docs col user_id)))) = true ->
  exists granked aranked,
    Weighted.get_user_top_genres_and_authors zero add lt lower (Some col)
      user_id top_n = inr (Weighted.profile_of top_n granked aranked) /\
    Weighted.ranking zero add lt
      (Weighted.entries zero lower (@Weighted.d_categories W)
         (Weighted.user_docs col user_id)) granked /\
    Weighted.ranking zero add lt
      (Weighted.entries zero lower (@Weighted.d_authors W)
         (Weighted.user_docs col user_id)) aranked.
Proof.
  intros Hnone Hg Ha.
  exists (Weighted.sorted_desc lt snd
            (Weighted.items zero add
               (Weighted.entries zero lower (@Weighted.d_categories W)
                  (Weighted.user_docs col user_id)))),
         (Weighted.sorted_desc lt snd
            (Weighted.items zero add
               (Weighted.entries zero lower (@Weighted.d_authors W)
                  (Weighted.user_docs col user_id)))).
  split; [|split; now apply w_ranking_sorted].
  unfold Weighted.get_user_top_genres_and_authors, Weighted.user_docs in *.
  pose proof (w_count_records W zero add lower _ [] [] Hnone) as E.
  unfold Dict.t in E. rewrite E. cbn [fst snd].
  rewrite !w_add_entries_items. reflexivity.
Qed.

Lemma stored_profile_ranked_witness :
  exists granked aranked,
    Weighted.get_user_top_genres_and_authors 0%float PrimFloat.add PrimFloat.ltb
      Str.lower (Some float_ratings) "u" 1 =
      inr (Weighted.profile_of 1 granked aranked) /\
    Weighted.ranking 0%float PrimFloat.add PrimFloat.ltb
      (Weighted.entries 0%float Str.lower (@Weighted.d_categories PrimFloat.float)
         (Weighted.user_docs float_ratings "u")) granked /\
    Weighted.ranking 0%float PrimFloat.add PrimFloat.ltb
      (Weighted.entries 0%float Str.lower (@Weighted.d_authors PrimFloat.float)
         (Weighted.user_docs float_ratings "u")) aranked.
Proof.
  apply (stored_profile_ranked PrimFloat.float 0%float PrimFloat.add PrimFloat.ltb
           Str.lower float_ratings "u" 1).
  - repeat (constructor; [intros E; discriminate E|]). constructor.
  - vm_compute. reflexivity.
  - vm_compute. reflexivity.
Defined.

(** On floats the order of the additions decides: "a" is rated
    0.5, 0.6, 0.6 and "b" 0.6, 0.6, 0.5; the running sums differ in the
    last place and "a" is ranked first although "b" was seen first. *)
Example float_profile :
  Weighted.get_user_top_genres_and_authors 0%float PrimFloat.add PrimFloat.ltb
    Str.lower (Some float_ratings) "u" 1 = inr (["a"%string], []) /\
  PrimFloat.ltb
    (Weighted.accumulated 0%float PrimFloat.add
       (Weighted.entries 0%float Str.lower (@Weighted.d_categories PrimFloat.float)
          float_ratings) "b")
    (Weighted.accumulated 0%float PrimFloat.add
       (Weighted.entries 0%float Str.lower (@Weighted.d_categories PrimFloat.float)
          float_ratings) "a") = true.
Proof. split; vm_compute; reflexivity. Qed.

(** A rating that is [None] next to genres raises, and so does a store
    that cannot be read. *)
Example none_rating_raises :
  Weighted.get_user_top_genres_and_authors 0 Z.add Z.ltb Str.lower
    (Some none_rating_store) "u" 3 = inl Weighted.TypeError /\
  Weighted.get_user_top_genres_and_authors 0 Z.add Z.ltb Str.lower
    (@None (list (Weighted.Doc Z))) "u" 3 = inl Weighted.StoreUnavailable.
Proof. split; reflexivity. Qed.
